(** * newrelic-condition-collector: the collector's [main.go], embedded and verified

    The program loads two strings from [config.json], asks the vendor API for
    the NRQL alert conditions of one policy, walks the decoded JSON tree while
    checking every field, and writes one CSV row per threshold term.

    Go strings are byte sequences: they are [string] here (one [ascii] per
    byte).  Go functions with several results return tuples here, in the same
    order, with [option error] for the [error] result ([None] is [nil]).
    Functions of Go's standard library that the program calls ([strconv],
    [fmt], [encoding/json], [encoding/csv], [os], [net/http]) are modelled
    after their documented behaviour and named after the Go function. *)

From Stdlib Require Import ZArith NArith Ascii String List Bool Lia.
From Stdlib Require Import DecimalString DecimalPos.
From Stdlib Require Floats.SpecFloat.
From stdpp Require Import base gmap strings list.

Local Open Scope Z_scope.

(** ** Bytes *)

Definition byte (c : ascii) : Z := Z.of_N (N_of_ascii c).
Definition of_byte (n : Z) : ascii := ascii_of_N (Z.to_N n).

Definition dquote : ascii := "034"%char.
Definition LF : ascii := "010"%char.
Definition CR : ascii := "013"%char.

Definition between (lo c hi : ascii) : bool :=
  (byte lo <=? byte c) && (byte c <=? byte hi).

Definition is_digit (c : ascii) : bool := between "0" c "9".

(** [lower] of strconv: [c | ('x' - 'X')]. *)
Definition lower (c : ascii) : ascii := of_byte (Z.lor (byte c) 32).

Definition eqc (a b : ascii) : bool := Ascii.eqb a b.

Fixpoint str_len (s : string) : Z :=
  match s with
  | EmptyString => 0
  | String _ s' => 1 + str_len s'
  end.

(** ** Errors

    The Go error values the program can return, by their dynamic type. *)

Inductive num_err := ErrSyntax | ErrRange.

Inductive error :=
| PathError (op path reason : string)          (* *fs.PathError, from os *)
| SyntaxError                                  (* *json.SyntaxError; message and offset left out *)
| UnexpectedEOF                                (* io.ErrUnexpectedEOF *)
| EOF                                          (* io.EOF *)
| UnmarshalTypeError (value : string)          (* *json.UnmarshalTypeError *)
| Errorf (msg : string)                        (* fmt.Errorf without verbs *)
| NumError (func num : string) (err : num_err) (* *strconv.NumError *)
| TransportError (msg : string).               (* *url.Error, from net/http *)

(** ** strconv.ParseFloat at 64 bits

    A float64 is a [spec_float] of precision 53 and maximal exponent 1024. *)

Abbreviation float64 := SpecFloat.spec_float.
Abbreviation prec := 53 (only parsing).
Abbreviation emax := 1024 (only parsing).

Module strconv.

(** [commonPrefixLenIgnoreCase]: [prefix] is lower case. *)
Fixpoint commonPrefixLenIgnoreCase (s pre : string) : Z :=
  match s, pre with
  | String c s', String p pre' =>
      let c := if between "A" c "Z" then of_byte (byte c + 32) else c in
      if eqc c p then 1 + commonPrefixLenIgnoreCase s' pre' else 0
  | _, _ => 0
  end.

(** [special]: the value and the number of bytes consumed. *)
Definition special (s : string) : option (float64 * Z) :=
  match s with
  | EmptyString => None
  | String c s' =>
      let inf (sign : bool) (nsign : Z) (t : string) :=
        let n := commonPrefixLenIgnoreCase t "infinity" in
        let n := if (3 <? n) && (n <? 8) then 3 else n in
        if (n =? 3) || (n =? 8)
        then Some (SpecFloat.S754_infinity sign, nsign + n) else None in
      if eqc c "+" then inf false 1 s'
      else if eqc c "-" then inf true 1 s'
      else if eqc c "i" || eqc c "I" then inf false 0 s
      else if eqc c "n" || eqc c "N" then
        if commonPrefixLenIgnoreCase s "nan" =? 3
        then Some (SpecFloat.S754_nan, 3) else None
      else None
  end.

(** The state of [readFloat]'s digit loop.  Go keeps the first 19 (16 in
    base 16) digits in a uint64 and a flag for the ones it dropped, then
    falls back to an exact decimal; here the mantissa holds every digit. *)
Record scan := {
  sawdot : bool; sawdigits : bool; underscores : bool;
  nd : Z; dp : Z; mantissa : Z }.

Definition scan0 : scan :=
  {| sawdot := false; sawdigits := false; underscores := false;
     nd := 0; dp := 0; mantissa := 0 |}.

Fixpoint digits (base : Z) (st : scan) (s : string) : scan * string :=
  match s with
  | EmptyString => (st, s)
  | String c s' =>
      if eqc c "_" then
        digits base {| sawdot := sawdot st; sawdigits := sawdigits st;
                       underscores := true; nd := nd st; dp := dp st;
                       mantissa := mantissa st |} s'
      else if eqc c "." then
        if sawdot st then (st, s)
        else digits base {| sawdot := true; sawdigits := sawdigits st;
                            underscores := underscores st; nd := nd st;
                            dp := nd st; mantissa := mantissa st |} s'
      else if is_digit c then
        if eqc c "0" && (nd st =? 0) then
          digits base {| sawdot := sawdot st; sawdigits := true;
                         underscores := underscores st; nd := nd st;
                         dp := dp st - 1; mantissa := mantissa st |} s'
        else
          digits base {| sawdot := sawdot st; sawdigits := true;
                         underscores := underscores st; nd := nd st + 1;
                         dp := dp st;
                         mantissa := mantissa st * base + (byte c - byte "0") |} s'
      else if (base =? 16) && between "a" (lower c) "f" then
        digits base {| sawdot := sawdot st; sawdigits := true;
                       underscores := underscores st; nd := nd st + 1;
                       dp := dp st;
                       mantissa := mantissa st * 16 + (byte (lower c) - byte "a" + 10) |} s'
      else (st, s)
  end.

(** The exponent's digits: [e] stops growing once it has reached 10000. *)
Fixpoint exp_digits (e : Z) (us : bool) (s : string) : Z * bool * string :=
  match s with
  | String c s' =>
      if eqc c "_" then exp_digits e true s'
      else if is_digit c then
        exp_digits (if e <? 10000 then e * 10 + byte c - byte "0" else e) us s'
      else (e, us, s)
  | EmptyString => (e, us, s)
  end.

(** [underscoreOK]: an underscore only between digits, or between a base
    prefix and a digit.  [saw] is the class of the previous byte. *)
Fixpoint underscoreOK_loop (hex : bool) (saw : ascii) (s : string) : bool :=
  match s with
  | EmptyString => negb (eqc saw "_")
  | String c s' =>
      if is_digit c || (hex && between "a" (lower c) "f") then
        underscoreOK_loop hex "0" s'
      else if eqc c "_" then
        if eqc saw "0" then underscoreOK_loop hex "_" s' else false
      else
        if eqc saw "_" then false else underscoreOK_loop hex "!" s'
  end.

Definition underscoreOK (s : string) : bool :=
  let s := match s with
           | String c s' => if eqc c "-" || eqc c "+" then s' else s
           | _ => s
           end in
  match s with
  | String c0 (String c1 s') =>
      if eqc c0 "0" && (eqc (lower c1) "b" || eqc (lower c1) "o" || eqc (lower c1) "x")
      then underscoreOK_loop (eqc (lower c1) "x") "0" s'
      else underscoreOK_loop false "^" s
  | _ => underscoreOK_loop false "^" s
  end.

(** What [readFloat] hands on: sign, base 16 or not, mantissa, exponent (of
    10, or of 2 in base 16) and the bytes left over. *)
Record number := {
  neg : bool; hex : bool; mant : Z; exp : Z; rest : string }.

Definition readFloat (s : string) : option number :=
  match s with
  | EmptyString => None
  | String c s0 =>
      let '(neg, s1) :=
        if eqc c "+" then (false, s0)
        else if eqc c "-" then (true, s0) else (false, s) in
      let '(hex, s2) :=
        match s1 with
        | String z (String x (String y t)) =>
            if eqc z "0" && eqc (lower x) "x" then (true, String y t)
            else (false, s1)
        | _ => (false, s1)
        end in
      let base := if hex then 16 else 10 in
      let '(st, s3) := digits base scan0 s2 in
      if negb (sawdigits st) then None else
      let dp := if sawdot st then dp st else nd st in
      let '(dp, ndMant) := if hex then (dp * 4, nd st * 4) else (dp, nd st) in
      let finish (dp : Z) (us : bool) (r : string) :=
        let consumed := Nat.sub (String.length s) (String.length r) in
        if us && negb (underscoreOK (String.substring 0 consumed s)) then None
        else Some {| neg := neg; hex := hex; mant := mantissa st;
                     exp := if mantissa st =? 0 then 0 else dp - ndMant;
                     rest := r |} in
      match s3 with
      | String e s4 =>
          if eqc (lower e) (if hex then "p" else "e")%char then
            match s4 with
            | EmptyString => None
            | String g s5 =>
                let '(esign, s6) :=
                  if eqc g "+" then (1, s5)
                  else if eqc g "-" then (-1, s5) else (1, s4) in
                match s6 with
                | String d _ =>
                    if is_digit d then
                      let '(e, us, r) := exp_digits 0 (underscores st) s6 in
                      finish (dp + e * esign) us r
                    else None
                | EmptyString => None
                end
            end
          else if hex then None else finish dp (underscores st) s3
      | EmptyString => if hex then None else finish dp (underscores st) s3
      end
  end.

(** The float64 nearest to [m * 10^e] or [m * 2^e], ties to even. *)
Definition nearest (n : number) : float64 :=
  match mant n with
  | Zpos m =>
      if hex n then SpecFloat.binary_round prec emax (neg n) m (exp n)
      else match exp n with
           | Zneg k =>
               let '(mz, ez, lz) :=
                 SpecFloat.SFdiv_core_binary prec emax (Zpos m) 0 (10 ^ Zpos k) 0 in
               SpecFloat.binary_round_aux prec emax (neg n) mz ez lz
           | e => SpecFloat.binary_round prec emax (neg n) (Z.to_pos (Zpos m * 10 ^ e)) 0
           end
  | _ => SpecFloat.S754_zero (neg n)
  end.

Definition is_inf (f : float64) : bool :=
  match f with SpecFloat.S754_infinity _ => true | _ => false end.

(** [ParseFloat(s, 64)]. *)
Definition ParseFloat (s : string) : float64 * option error :=
  match special s with
  | Some (f, n) =>
      if n =? str_len s then (f, None)
      else (SpecFloat.S754_zero false, Some (NumError "ParseFloat" s ErrSyntax))
  | None =>
      match readFloat s with
      | None => (SpecFloat.S754_zero false, Some (NumError "ParseFloat" s ErrSyntax))
      | Some n =>
          match rest n with
          | EmptyString =>
              let f := nearest n in
              if is_inf f then (f, Some (NumError "ParseFloat" s ErrRange))
              else (f, None)
          | _ => (SpecFloat.S754_zero false, Some (NumError "ParseFloat" s ErrSyntax))
          end
      end
  end.

End strconv.

(** ** fmt.Sprintf with the verb [%.f] *)

Module fmt.

(** [m / 2^k] rounded to the nearest integer, ties to even. *)
Definition round_half_even (m : Z) (k : Z) : Z :=
  let q := Z.shiftr m k in
  let r := m - Z.shiftl q k in
  match Z.compare (2 * r) (Z.shiftl 1 k) with
  | Lt => q
  | Gt => q + 1
  | Eq => if Z.even q then q else q + 1
  end.

Definition decimal (n : Z) : string := NilEmpty.string_of_uint (N.to_uint (Z.to_N n)).

(** A float64 with zero digits after the point; the sign is kept, also on
    zero, and the point is not printed. *)
Definition Sprintf_f0 (f : float64) : string :=
  match f with
  | SpecFloat.S754_nan => "NaN"
  | SpecFloat.S754_infinity s => if s then "-Inf" else "+Inf"
  | SpecFloat.S754_zero s => if s then "-0" else "0"
  | SpecFloat.S754_finite s m e =>
      let n := match e with
               | Zneg k => round_half_even (Zpos m) (Zpos k)
               | _ => Zpos m * 2 ^ e
               end in
      (if s then "-" else "") +:+ decimal n
  end.

(** [%t] *)
Definition Sprintf_t (b : bool) : string := if b then "true" else "false".

End fmt.

(** ** The program's [formatThreshold] *)

Definition formatThreshold (value : string) : string * option error :=
  let '(f, err) := strconv.ParseFloat value in
  match err with
  | Some e => ("", Some e)
  | None => (fmt.Sprintf_f0 f, None)
  end.

(** ** unicode/utf8 *)

Module utf8.

Definition cont (c : ascii) : bool := between "128" c "191".

(** [EncodeRune], for a rune that is neither a surrogate nor out of range. *)
Definition EncodeRune (r : Z) : string :=
  if r <? 128 then String (of_byte r) ""
  else if r <? 2048 then
    String (of_byte (192 + r / 64)) (String (of_byte (128 + r mod 64)) "")
  else if r <? 65536 then
    String (of_byte (224 + r / 4096))
      (String (of_byte (128 + (r / 64) mod 64)) (String (of_byte (128 + r mod 64)) ""))
  else
    String (of_byte (240 + r / 262144))
      (String (of_byte (128 + (r / 4096) mod 64))
         (String (of_byte (128 + (r / 64) mod 64)) (String (of_byte (128 + r mod 64)) ""))).

(** U+FFFD, the replacement character. *)
Definition RuneError : Z := 65533.

(** The length of the well-formed sequence that starts with [c0], given the
    three bytes after it when there are that many; 0 when none does. *)
Definition width (c0 : ascii) (c1 c2 c3 : option ascii) : Z :=
  let on (f : ascii -> bool) (o : option ascii) := from_option f false o in
  if byte c0 <? 128 then 1
  else if between "194" c0 "223" then (if on cont c1 then 2 else 0)
  else if between "224" c0 "239" then
    (if on (fun c => if eqc c0 "224" then between "160" c "191"
                     else if eqc c0 "237" then between "128" c "159"
                     else cont c) c1 && on cont c2 then 3 else 0)
  else if between "240" c0 "244" then
    (if on (fun c => if eqc c0 "240" then between "144" c "191"
                     else if eqc c0 "244" then between "128" c "143"
                     else cont c) c1 && on cont c2 && on cont c3 then 4 else 0)
  else 0.

Definition head (s : string) : option ascii :=
  match s with String c _ => Some c | EmptyString => None end.
Definition tail (s : string) : string :=
  match s with String _ t => t | EmptyString => s end.

(** [DecodeRuneInString]: the rune at the head of [s]. *)
Definition DecodeRuneInString (s : string) : Z :=
  match s with
  | EmptyString => RuneError
  | String c0 t =>
      let c1 := head t in let c2 := head (tail t) in let c3 := head (tail (tail t)) in
      let b (o : option ascii) := from_option (fun c => byte c mod 64) 0 o in
      match width c0 c1 c2 c3 with
      | 1 => byte c0
      | 2 => (byte c0 mod 32) * 64 + b c1
      | 3 => (byte c0 mod 16) * 4096 + b c1 * 64 + b c2
      | 4 => (byte c0 mod 8) * 262144 + b c1 * 4096 + b c2 * 64 + b c3
      | _ => RuneError
      end
  end.

End utf8.

(** [unicode.IsSpace] *)
Definition unicode_IsSpace (r : Z) : bool :=
  ((9 <=? r) && (r <=? 13)) || (r =? 32) || (r =? 133) || (r =? 160)
  || (r =? 5760) || ((8192 <=? r) && (r <=? 8202))
  || (r =? 8232) || (r =? 8233) || (r =? 8239) || (r =? 8287) || (r =? 12288).

(** ** encoding/json: reading one value from a stream *)

Set Warnings "-register-all".

Module json.

(** A JSON text, members in the order of the document. *)
Inductive value :=
| Null
| Bool (b : bool)
| Number (lit : string)
| Str (s : string)
| Array (elems : list value)
| Object (members : list (string * value)).

Definition isSpace (c : ascii) : bool :=
  eqc c " " || eqc c "009" || eqc c CR || eqc c LF.

Definition hexval (c : ascii) : option Z :=
  if is_digit c then Some (byte c - byte "0")
  else if between "a" c "f" then Some (byte c - byte "a" + 10)
  else if between "A" c "F" then Some (byte c - byte "A" + 10)
  else None.

(** [getu4] on the four bytes after a backslash and a u; -1 when they are
    not four hexadecimal digits. *)
Definition getu4 (a b c d : ascii) : Z :=
  match hexval a, hexval b, hexval c, hexval d with
  | Some a, Some b, Some c, Some d => ((a * 16 + b) * 16 + c) * 16 + d
  | _, _, _, _ => -1
  end.

Definition IsSurrogate (r : Z) : bool := (55296 <=? r) && (r <? 57344).

(** [utf16.DecodeRune] *)
Definition utf16_DecodeRune (r1 r2 : Z) : Z :=
  if (55296 <=? r1) && (r1 <? 56320) && (56320 <=? r2) && (r2 <? 57344)
  then (r1 - 55296) * 1024 + (r2 - 56320) + 65536
  else utf8.RuneError.

Definition backslash : ascii := "092"%char.

(** [unquote] on the bytes between the quotes of a string the scanner has
    accepted: escapes are replaced, a surrogate pair becomes one rune, a
    lone surrogate and every byte that is not UTF-8 become U+FFFD. *)
Fixpoint unquote (s : string) : string :=
  match s with
  | EmptyString => ""
  | String c t =>
      if eqc c backslash then
        match t with
        | String e t1 =>
            if eqc e "u" then
              match t1 with
              | String h1 (String h2 (String h3 (String h4 t2))) =>
                  let rr := getu4 h1 h2 h3 h4 in
                  if IsSurrogate rr then
                    match t2 with
                    | String b' (String u' (String k1 (String k2 (String k3 (String k4 t3))))) =>
                        let rr1 := if eqc b' backslash && eqc u' "u"
                                   then getu4 k1 k2 k3 k4 else -1 in
                        let dec := utf16_DecodeRune rr rr1 in
                        if dec =? utf8.RuneError
                        then utf8.EncodeRune utf8.RuneError +:+ unquote t2
                        else utf8.EncodeRune dec +:+ unquote t3
                    | _ => utf8.EncodeRune utf8.RuneError +:+ unquote t2
                    end
                  else utf8.EncodeRune rr +:+ unquote t2
              | _ => ""
              end
            else
              let r := if eqc e "b" then "008"%char
                       else if eqc e "f" then "012"%char
                       else if eqc e "n" then LF else if eqc e "r" then CR
                       else if eqc e "t" then "009"%char else e in
              String r (unquote t1)
        | EmptyString => ""
        end
      else
        match t with
        | String c1 t1 =>
            match t1 with
            | String c2 t2 =>
                match t2 with
                | String c3 t3 =>
                    match utf8.width c (Some c1) (Some c2) (Some c3) with
                    | 1 => String c (unquote t)
                    | 2 => String c (String c1 (unquote t1))
                    | 3 => String c (String c1 (String c2 (unquote t2)))
                    | 4 => String c (String c1 (String c2 (String c3 (unquote t3))))
                    | _ => utf8.EncodeRune utf8.RuneError +:+ unquote t
                    end
                | EmptyString =>
                    match utf8.width c (Some c1) (Some c2) None with
                    | 1 => String c (unquote t)
                    | 2 => String c (String c1 (unquote t1))
                    | 3 => String c (String c1 (String c2 (unquote t2)))
                    | _ => utf8.EncodeRune utf8.RuneError +:+ unquote t
                    end
                end
            | EmptyString =>
                match utf8.width c (Some c1) None None with
                | 1 => String c (unquote t)
                | 2 => String c (String c1 (unquote t1))
                | _ => utf8.EncodeRune utf8.RuneError +:+ unquote t
                end
            end
        | EmptyString =>
            match utf8.width c None None None with
            | 1 => String c ""
            | _ => utf8.EncodeRune utf8.RuneError
            end
        end
  end.

(** *** The scanner, one byte at a time *)

(** [TError] stands for a byte the scanner refuses inside a token or where
    no token starts, [TCut] for the end of the input inside a token, of a
    string or of a number or literal. *)
Inductive token :=
| TLBrace | TRBrace | TLBrack | TRBrack | TColon | TComma
| TString (s : string) | TNumber (lit : string)
| TTrue | TFalse | TNull
| TError (e : error)
| TCut (in_string : bool).

(** The scanner's states inside a number. *)
Inductive nstate := SNeg | S0 | S1 | SDot | SDot0 | SE | SESign | SE0.

Definition accepting (st : nstate) : bool :=
  match st with S0 | S1 | SDot0 | SE0 => true | _ => false end.

Definition nstep (st : nstate) (c : ascii) : option nstate :=
  let frac_or_exp := if eqc c "." then Some SDot
                     else if eqc c "e" || eqc c "E" then Some SE else None in
  match st with
  | SNeg => if eqc c "0" then Some S0 else if between "1" c "9" then Some S1 else None
  | S0 => frac_or_exp
  | S1 => if is_digit c then Some S1 else frac_or_exp
  | SDot => if is_digit c then Some SDot0 else None
  | SDot0 => if is_digit c then Some SDot0
             else if eqc c "e" || eqc c "E" then Some SE else None
  | SE => if eqc c "+" || eqc c "-" then Some SESign
          else if is_digit c then Some SE0 else None
  | SESign => if is_digit c then Some SE0 else None
  | SE0 => if is_digit c then Some SE0 else None
  end.

(** Where the scanner is: between tokens, inside a string ([acc] holds the
    bytes so far, last first; [esc] is 1 after a backslash and 1 + the number
    of hexadecimal digits still due after a u), inside a number, or inside
    one of the three literals. *)
Inductive mode :=
| Idle
| InString (acc : string) (esc : Z)
| InNumber (acc : string) (st : nstate)
| InLiteral (due : string) (tok : token).

(** The first byte of a token. *)
Definition start (c : ascii) : list token * option mode :=
  if isSpace c then ([], Some Idle)
  else if eqc c "{" then ([TLBrace], Some Idle)
  else if eqc c "}" then ([TRBrace], Some Idle)
  else if eqc c "[" then ([TLBrack], Some Idle)
  else if eqc c "]" then ([TRBrack], Some Idle)
  else if eqc c ":" then ([TColon], Some Idle)
  else if eqc c "," then ([TComma], Some Idle)
  else if eqc c dquote then ([], Some (InString "" 0))
  else if eqc c "-" then ([], Some (InNumber (String c "") SNeg))
  else if eqc c "0" then ([], Some (InNumber (String c "") S0))
  else if between "1" c "9" then ([], Some (InNumber (String c "") S1))
  else if eqc c "t" then ([], Some (InLiteral "rue" TTrue))
  else if eqc c "f" then ([], Some (InLiteral "alse" TFalse))
  else if eqc c "n" then ([], Some (InLiteral "ull" TNull))
  else ([TError SyntaxError], None).

Fixpoint lex (m : mode) (s : string) : list token :=
  match s with
  | EmptyString =>
      match m with
      | Idle => []
      | InString _ _ => [TCut true]
      | InNumber acc st =>
          if accepting st then [TNumber (String.rev acc)] else [TCut false]
      | InLiteral _ _ => [TCut false]
      end
  | String c s' =>
      match m with
      | Idle =>
          let '(ts, m') := start c in
          ts ++ match m' with Some m' => lex m' s' | None => [] end
      | InString acc esc =>
          if esc =? 0 then
            if eqc c dquote then TString (unquote (String.rev acc)) :: lex Idle s'
            else if eqc c backslash then lex (InString (String c acc) 1) s'
            else if byte c <? 32 then [TError SyntaxError]
            else lex (InString (String c acc) 0) s'
          else if esc =? 1 then
            if eqc c "u" then lex (InString (String c acc) 5) s'
            else if eqc c "b" || eqc c "f" || eqc c "n" || eqc c "r" || eqc c "t"
                    || eqc c backslash || eqc c "/" || eqc c dquote
            then lex (InString (String c acc) 0) s'
            else [TError SyntaxError]
          else
            match hexval c with
            | Some _ => lex (InString (String c acc) (if esc =? 2 then 0 else esc - 1)) s'
            | None => [TError SyntaxError]
            end
      | InNumber acc st =>
          match nstep st c with
          | Some st' => lex (InNumber (String c acc) st') s'
          | None =>
              if accepting st then
                let '(ts, m') := start c in
                TNumber (String.rev acc) :: ts
                  ++ match m' with Some m' => lex m' s' | None => [] end
              else [TError SyntaxError]
          end
      | InLiteral due tok =>
          match due with
          | String d due' =>
              if eqc c d then
                match due' with
                | EmptyString => tok :: lex Idle s'
                | _ => lex (InLiteral due' tok) s'
                end
              else [TError SyntaxError]
          | EmptyString => [TError SyntaxError]
          end
      end
  end.

(** *** The value the tokens spell *)

(** An open array or object: what it holds so far, last first, and for an
    object the key whose value is due. *)
Inductive frame :=
| InArray (acc : list value)
| InObject (acc : list (string * value)) (key : string).

Inductive pstate :=
| BeginValue | BeginValueOrEmpty | BeginStringOrEmpty | BeginString
| EndKey | EndValue.

Definition maxNestingDepth : Z := 10000.

(** A value is complete: it is the result, or it goes into the open
    container. *)
Definition complete (v : value) (stack : list frame) : value + list frame :=
  match stack with
  | [] => inl v
  | InArray acc :: stack' => inr (InArray (v :: acc) :: stack')
  | InObject acc k :: stack' => inr (InObject ((k, v) :: acc) k :: stack')
  end.

Fixpoint parse (st : pstate) (stack : list frame) (ts : list token) : value + error :=
  match ts with
  | [] => inr UnexpectedEOF
  | t :: ts' =>
      let continue (r : value + list frame) :=
        match r with
        | inl v => inl v
        | inr stack' => parse EndValue stack' ts'
        end in
      let push (f : frame) (st' : pstate) :=
        if Z.of_nat (length stack) + 1 <=? maxNestingDepth
        then parse st' (f :: stack) ts' else inr SyntaxError in
      let begin_value :=
        match t with
        | TLBrace => push (InObject [] "") BeginStringOrEmpty
        | TLBrack => push (InArray []) BeginValueOrEmpty
        | TString s => continue (complete (Str s) stack)
        | TNumber lit => continue (complete (Number lit) stack)
        | TTrue => continue (complete (Bool true) stack)
        | TFalse => continue (complete (Bool false) stack)
        | TNull => continue (complete Null stack)
        | TError e => inr e
        | TCut _ => inr UnexpectedEOF
        | _ => inr SyntaxError
        end in
      let begin_string :=
        match t, stack with
        | TString k, InObject acc _ :: stack' => parse EndKey (InObject acc k :: stack') ts'
        | TError e, _ => inr e
        | TCut true, _ => inr UnexpectedEOF
        | _, _ => inr SyntaxError
        end in
      match st with
      | BeginValue => begin_value
      | BeginValueOrEmpty =>
          match t, stack with
          | TRBrack, InArray _ :: stack' => continue (complete (Array []) stack')
          | _, _ => begin_value
          end
      | BeginStringOrEmpty =>
          match t, stack with
          | TRBrace, InObject _ _ :: stack' => continue (complete (Object []) stack')
          | _, _ => begin_string
          end
      | BeginString => begin_string
      | EndKey =>
          match t with
          | TColon => parse BeginValue stack ts'
          | TError e => inr e
          | _ => inr SyntaxError
          end
      | EndValue =>
          match t, stack with
          | TComma, InArray _ :: _ => parse BeginValue stack ts'
          | TRBrack, InArray acc :: stack' => continue (complete (Array (rev acc)) stack')
          | TComma, InObject _ _ :: _ => parse BeginString stack ts'
          | TRBrace, InObject acc _ :: stack' => continue (complete (Object (rev acc)) stack')
          | TError e, _ => inr e
          | _, _ => inr SyntaxError
          end
      end
  end.

(** The first JSON value of a stream; what follows it is not looked at. *)
Definition readValue (data : string) : value + error :=
  match lex Idle data with
  | [] => inr EOF
  | ts => parse BeginValue [] ts
  end.

End json.


(** *** Decoding into [interface{}] and into [map[string]interface{}] *)

(** What an [interface{}] holds after decoding. *)
Inductive Value :=
| VNil
| VBool (b : bool)
| VFloat64 (f : float64)
| VString (s : string)
| VSlice (l : list Value)
| VMap (m : gmap string Value).

Definition first_error (e1 e2 : option error) : option error :=
  match e1 with Some _ => e1 | None => e2 end.

(** The decoder keeps the first error and goes on; a number that does not
    fit a float64 is such an error.  A key that comes twice keeps its last
    value. *)
Fixpoint valueInterface (v : json.value) : Value * option error :=
  match v with
  | json.Null => (VNil, None)
  | json.Bool b => (VBool b, None)
  | json.Str s => (VString s, None)
  | json.Number lit =>
      let '(f, err) := strconv.ParseFloat lit in
      match err with
      | Some _ => (VNil, Some (UnmarshalTypeError ("number " +:+ lit)))
      | None => (VFloat64 f, None)
      end
  | json.Array elems =>
      let fix arrayInterface (l : list json.value) : list Value * option error :=
        match l with
        | [] => ([], None)
        | x :: l' =>
            let '(x', e1) := valueInterface x in
            let '(l'', e2) := arrayInterface l' in
            (x' :: l'', first_error e1 e2)
        end in
      let '(l, e) := arrayInterface elems in (VSlice l, e)
  | json.Object members =>
      let fix objectInterface (m : gmap string Value) (l : list (string * json.value))
          : gmap string Value * option error :=
        match l with
        | [] => (m, None)
        | (k, x) :: l' =>
            let '(x', e1) := valueInterface x in
            let '(m', e2) := objectInterface (<[k := x']> m) l' in
            (m', first_error e1 e2)
        end in
      let '(m, e) := objectInterface ∅ members in (VMap m, e)
  end.

(** [json.NewDecoder(r).Decode(&data)] for [var data map[string]interface{}]:
    a nil map reads like the empty one, and [null] leaves it nil. *)
Definition Decode_map (body : string) : gmap string Value * option error :=
  match json.readValue body with
  | inr e => (∅, Some e)
  | inl json.Null => (∅, None)
  | inl (json.Object members) =>
      match valueInterface (json.Object members) with
      | (VMap m, e) => (m, e)
      | (_, e) => (∅, e)
      end
  | inl (json.Array _) => (∅, Some (UnmarshalTypeError "array"))
  | inl (json.Str _) => (∅, Some (UnmarshalTypeError "string"))
  | inl (json.Number _) => (∅, Some (UnmarshalTypeError "number"))
  | inl (json.Bool _) => (∅, Some (UnmarshalTypeError "bool"))
  end.

(** ** The program's types *)

Record Config := { APIKey : string; AlertPolicyID : string }.

Record Term := {
  Duration : string; Operator : string; Threshold : string;
  TimeFunction : string; Priority : string }.

Record NRQLCondition := { Name : string; Terms : list Term; Enabled : bool }.

(** *** Decoding into [*Config] *)

(** [foldName]: ASCII letters to upper case; the Kelvin sign (E2 84 AA) and
    the long s (C5 BF) fold to K and S.  Other runes are left as they are:
    they fold to runes outside ASCII, which no field name of [Config] has. *)
Fixpoint foldName (s : string) : string :=
  match s with
  | EmptyString => ""
  | String c t =>
      if between "a" c "z" then String (of_byte (byte c - 32)) (foldName t)
      else match t with
           | String c1 t1 =>
               if eqc c "197" && eqc c1 "191" then String "S" (foldName t1)
               else match t1 with
                    | String c2 t2 =>
                        if eqc c "226" && eqc c1 "132" && eqc c2 "170"
                        then String "K" (foldName t2)
                        else String c (foldName t)
                    | EmptyString => String c (foldName t)
                    end
           | EmptyString => String c ""
           end
  end.

Definition names (key field : string) : bool :=
  bool_decide (foldName key = foldName field).

(** A JSON value stored into a Go string: a string is taken, [null] changes
    nothing, anything else is a type error and changes nothing. *)
Definition store_string (v : json.value) (old : string) : string * option error :=
  match v with
  | json.Str s => (s, None)
  | json.Null => (old, None)
  | json.Number _ => (old, Some (UnmarshalTypeError "number"))
  | json.Bool _ => (old, Some (UnmarshalTypeError "bool"))
  | json.Array _ => (old, Some (UnmarshalTypeError "array"))
  | json.Object _ => (old, Some (UnmarshalTypeError "object"))
  end.

(** The members of an object, in order, onto the fields tagged [apiKey] and
    [alertPolicyID]; other keys are skipped. *)
Fixpoint object_Config (config : Config) (members : list (string * json.value))
    : Config * option error :=
  match members with
  | [] => (config, None)
  | (k, v) :: members' =>
      let '(config', e1) :=
        if names k "apiKey" then
          let '(s, e) := store_string v (APIKey config) in
          ({| APIKey := s; AlertPolicyID := AlertPolicyID config |}, e)
        else if names k "alertPolicyID" then
          let '(s, e) := store_string v (AlertPolicyID config) in
          ({| APIKey := APIKey config; AlertPolicyID := s |}, e)
        else (config, None) in
      let '(config'', e2) := object_Config config' members' in
      (config'', first_error e1 e2)
  end.

(** [decoder.Decode(config)] for [config *Config]. *)
Definition Decode_Config (data : string) (config : Config) : Config * option error :=
  match json.readValue data with
  | inr e => (config, Some e)
  | inl json.Null => (config, None)
  | inl (json.Object members) => object_Config config members
  | inl (json.Array _) => (config, Some (UnmarshalTypeError "array"))
  | inl (json.Str _) => (config, Some (UnmarshalTypeError "string"))
  | inl (json.Number _) => (config, Some (UnmarshalTypeError "number"))
  | inl (json.Bool _) => (config, Some (UnmarshalTypeError "bool"))
  end.

(** ** The process's surroundings: files, network, console *)

(** Regular files by path; [denied] holds the paths at which the process
    can neither create a file nor read one; [dirs] says which of these are
    directories: a directory opens, but no byte can be read from it, while
    any other path in [denied] is refused on opening; [room] is the size no
    file may exceed ([None]: no limit). *)
Record FileSystem := {
  files : gmap string string;
  denied : gset string;
  dirs : gset string;
  room : option Z }.

Definition with_files (fs : FileSystem) (f : gmap string string) : FileSystem :=
  {| files := f; denied := denied fs; dirs := dirs fs; room := room fs |}.

(** An open [*os.File], as a reader sees it: the bytes of a regular file, or
    a directory, where the first read fails. *)
Inductive File :=
| Regular (data : string)
| Directory (name : string).

(** [os.Open]: opening succeeds for a regular file and for a directory. *)
Definition os_Open (fs : FileSystem) (name : string) : option File * option error :=
  if bool_decide (name ∈ denied fs)
  then if bool_decide (name ∈ dirs fs)
       then (Some (Directory name), None)
       else (None, Some (PathError "open" name "permission denied"))
  else match files fs !! name with
       | Some data => (Some (Regular data), None)
       | None => (None, Some (PathError "open" name "no such file or directory"))
       end.

(** [json.NewDecoder(file).Decode(config)]: the decoder hands on the error
    of a read that fails before a value is complete. *)
Definition Decoder_Decode (file : File) (config : Config) : Config * option error :=
  match file with
  | Regular data => Decode_Config data config
  | Directory name => (config, Some (PathError "read" name "is a directory"))
  end.

(** [os.Create]: the file exists and is empty afterwards; a path in
    [denied] is refused, a directory as such. *)
Definition os_Create (fs : FileSystem) (name : string) : FileSystem * option error :=
  if bool_decide (name ∈ denied fs)
  then (fs, Some (PathError "open" name
                    (if bool_decide (name ∈ dirs fs) then "is a directory"
                     else "permission denied")))
  else (with_files fs (<[name := ""]> (files fs)), None).

Fixpoint take (n : nat) (s : string) : string :=
  match n, s with
  | S n', String c s' => String c (take n' s')
  | _, _ => ""
  end.

(** Bytes appended to an open file: the device takes what still fits. *)
Definition file_Write (fs : FileSystem) (name : string) (b : string)
    : FileSystem * option error :=
  let data := default "" (files fs !! name) +:+ b in
  match room fs with
  | Some r =>
      if str_len data <=? r then (with_files fs (<[name := data]> (files fs)), None)
      else (with_files fs (<[name := take (Z.to_nat r) data]> (files fs)),
            Some (PathError "write" name "no space left on device"))
  | None => (with_files fs (<[name := data]> (files fs)), None)
  end.

(** [http.NewRequest] may refuse the URL; [client.Do] gives the response's
    body or an error. *)
Record Network := {
  NewRequest : string -> option error;
  Do : string -> string -> string + error }.

Inductive arg := S_ (s : string) | E_ (e : error).

(** One call of [fmt.Printf] or [fmt.Println], with its arguments.  The
    console of a run is the list of the calls made, in their order: it tells
    which statement printed and what it was given, not the bytes that reach
    standard output. *)
Inductive call :=
| Printf (format : string) (args : list arg)
| Println (args : list arg).

(** ** encoding/csv: the writer, with [Comma] a comma and [UseCRLF] off *)

Module csv.

Fixpoint contains (f : ascii -> bool) (s : string) : bool :=
  match s with
  | EmptyString => false
  | String c s' => f c || contains f s'
  end.

Definition special (c : ascii) : bool :=
  eqc c LF || eqc c CR || eqc c dquote || eqc c ",".

Definition fieldNeedsQuotes (field : string) : bool :=
  if bool_decide (field = "") then false
  else if bool_decide (field = String json.backslash ".") then true
  else if contains special field then true
  else unicode_IsSpace (utf8.DecodeRuneInString field).

(** The bytes of a quoted field between its quotes: a quote is doubled. *)
Fixpoint escape (field : string) : string :=
  match field with
  | EmptyString => ""
  | String c s' =>
      if eqc c dquote then String dquote (String dquote (escape s'))
      else String c (escape s')
  end.

Definition field_bytes (field : string) : string :=
  if fieldNeedsQuotes field
  then String dquote (escape field) +:+ String dquote ""
  else field.

Fixpoint fields_bytes (n : nat) (record : list string) : string :=
  match record with
  | [] => ""
  | field :: record' =>
      (if (0 <? n)%nat then "," else "") +:+ field_bytes field
        +:+ fields_bytes (S n) record'
  end.

(** What [Write] hands to the buffered writer for one record. *)
Definition record_bytes (record : list string) : string :=
  fields_bytes 0 record +:+ String LF "".

(** A [*csv.Writer] over an open file.  The writer's buffer (bufio, 4096
    bytes) is left out: a write goes through to the file at once, so the
    device's refusal shows at the [Write] that meets it and not at a later
    [Write] or at [Flush].  What [SaveNRQLConditionsAsCSV] returns is the
    same: it hands on the error of either. *)
Record Writer := { w_file : string; w_err : option error }.

Definition NewWriter (file : string) : Writer := {| w_file := file; w_err := None |}.

Definition Write (w : Writer) (record : list string) (fs : FileSystem)
    : Writer * FileSystem * option error :=
  match w_err w with
  | Some e => (w, fs, Some e)
  | None =>
      let '(fs', err) := file_Write fs (w_file w) (record_bytes record) in
      ({| w_file := w_file w; w_err := err |}, fs', err)
  end.

Definition Flush (w : Writer) (fs : FileSystem) : Writer * FileSystem := (w, fs).

Definition Error (w : Writer) : option error := w_err w.

End csv.

(** ** The program *)

(** [loadConfig]: [nil] is [None]. *)
Definition loadConfig (fs : FileSystem) (filename : string) : option Config * option error :=
  let '(file, err) := os_Open fs filename in
  match err, file with
  | Some err, _ => (None, Some err)
  | None, None => (None, None)
  | None, Some file =>
      let config := {| APIKey := ""; AlertPolicyID := "" |} in
      let '(config, err) := Decoder_Decode file config in
      match err with
      | Some err => (None, Some err)
      | None => (Some config, None)
      end
  end.

(** Go's [m[k]] on a [map[string]interface{}]: [nil] for a missing key. *)
Definition index (m : gmap string Value) (k : string) : Value := default VNil (m !! k).

(** The checked type assertions [v.(T)] with two results. *)
Definition as_slice (v : Value) : list Value * bool :=
  match v with VSlice l => (l, true) | _ => ([], false) end.
Definition as_map (v : Value) : gmap string Value * bool :=
  match v with VMap m => (m, true) | _ => (∅, false) end.
Definition as_string (v : Value) : string * bool :=
  match v with VString s => (s, true) | _ => ("", false) end.
Definition as_bool (v : Value) : bool * bool :=
  match v with VBool b => (b, true) | _ => (false, false) end.

(** The loop over [termsData] (lines 142 to 186): the terms, or the error
    that [fetchNRQLConditions] returns from inside the loop. *)
Fixpoint terms_loop (terms : list Term) (termsData : list Value) : list Term + error :=
  match termsData with
  | [] => inl terms
  | termData :: termsData' =>
      let '(term, ok) := as_map termData in
      if negb ok then inr (Errorf "term has incorrect type") else
      let '(duration, ok) := as_string (index term "duration") in
      if negb ok then inr (Errorf "duration field is not a string") else
      let '(operator, ok) := as_string (index term "operator") in
      if negb ok then inr (Errorf "operator field is not a string") else
      let '(thresholdValue, ok) := as_string (index term "threshold") in
      if negb ok then inr (Errorf "threshold field is not a string") else
      let '(threshold, err) := formatThreshold thresholdValue in
      match err with
      | Some err => inr err
      | None =>
          let '(timeFunction, ok) := as_string (index term "time_function") in
          if negb ok then inr (Errorf "time_function field is not a string") else
          let '(priority, ok) := as_string (index term "priority") in
          if negb ok then inr (Errorf "priority field is not a string") else
          terms_loop (terms ++ [{| Duration := duration; Operator := operator;
                                   Threshold := threshold;
                                   TimeFunction := timeFunction;
                                   Priority := priority |}]) termsData'
      end
  end.

(** The loop over [conditions] (lines 118 to 195), with the function's
    return values: [nil] and the error, or the conditions and [nil]. *)
Fixpoint conditions_loop (nrqlConditions : list NRQLCondition) (conditions : list Value)
    : list NRQLCondition * option error :=
  match conditions with
  | [] => (nrqlConditions, None)
  | c :: conditions' =>
      let '(condition, ok) := as_map c in
      if negb ok then ([], Some (Errorf "nrql condition has incorrect type")) else
      let '(name, ok) := as_string (index condition "name") in
      if negb ok then ([], Some (Errorf "name field is not a string")) else
      let '(enabled, ok) := as_bool (index condition "enabled") in
      if negb ok then ([], Some (Errorf "enabled field is not a boolean")) else
      let '(termsData, ok) := as_slice (index condition "terms") in
      if negb ok then ([], Some (Errorf "terms field not found or has incorrect type")) else
      match terms_loop [] termsData with
      | inr err => ([], Some err)
      | inl terms =>
          conditions_loop (nrqlConditions ++ [{| Name := name; Terms := terms;
                                                 Enabled := enabled |}]) conditions'
      end
  end.

(** Lines 113 to 196: what [fetchNRQLConditions] does with the decoded body. *)
Definition extract (data : gmap string Value) : list NRQLCondition * option error :=
  let '(conditions, ok) := as_slice (index data "nrql_conditions") in
  if negb ok then ([], Some (Errorf "nrql_conditions field not found or has incorrect type"))
  else conditions_loop [] conditions.

Definition endpoint : string :=
  "https://api.newrelic.com/v2/alerts_nrql_conditions.json?policy_id=".

Definition fetchNRQLConditions (net : Network) (apiKey policyID : string)
    : list NRQLCondition * option error :=
  let url := endpoint +:+ policyID in
  match NewRequest net url with
  | Some err => ([], Some err)
  | None =>
      match Do net url apiKey with
      | inr err => ([], Some err)
      | inl body =>
          let '(data, err) := Decode_map body in
          match err with
          | Some err => ([], Some err)
          | None => extract data
          end
      end
  end.

Definition header : list string :=
  ["Condition Name"; "Duration"; "Operator"; "Threshold"; "Time Function";
   "Priority"; "Active"].

Definition record_of (condition : NRQLCondition) (term : Term) : list string :=
  [Name condition; Duration term; Operator term; Threshold term;
   TimeFunction term; Priority term; fmt.Sprintf_t (Enabled condition)].

(** The inner loop of [SaveNRQLConditionsAsCSV] (lines 225 to 238); an error
    ends the function. *)
Fixpoint save_terms (writer : csv.Writer) (condition : NRQLCondition) (terms : list Term)
    (fs : FileSystem) : csv.Writer * FileSystem * option error :=
  match terms with
  | [] => (writer, fs, None)
  | term :: terms' =>
      let '(writer, fs, err) := csv.Write writer (record_of condition term) fs in
      match err with
      | Some err => (writer, fs, Some err)
      | None => save_terms writer condition terms' fs
      end
  end.

(** The outer loop (lines 224 to 239). *)
Fixpoint save_conditions (writer : csv.Writer) (nrqlConditions : list NRQLCondition)
    (fs : FileSystem) : csv.Writer * FileSystem * option error :=
  match nrqlConditions with
  | [] => (writer, fs, None)
  | condition :: nrqlConditions' =>
      let '(writer, fs, err) := save_terms writer condition (Terms condition) fs in
      match err with
      | Some err => (writer, fs, Some err)
      | None => save_conditions writer nrqlConditions' fs
      end
  end.

Definition SaveNRQLConditionsAsCSV (filename : string) (nrqlConditions : list NRQLCondition)
    (fs : FileSystem) : FileSystem * option error :=
  let '(fs, err) := os_Create fs filename in
  match err with
  | Some err => (fs, Some err)
  | None =>
      let writer := csv.NewWriter filename in
      let '(writer, fs, err) := csv.Write writer header fs in
      match err with
      | Some err => (fs, Some err)
      | None =>
          let '(writer, fs, err) := save_conditions writer nrqlConditions fs in
          match err with
          | Some err => (fs, Some err)
          | None =>
              let '(writer, fs) := csv.Flush writer fs in
              match csv.Error writer with
              | Some err => (fs, Some err)
              | None => (fs, None)
              end
          end
      end
  end.

Record World := { fs : FileSystem; net : Network; console : list call }.

Definition print (w : World) (c : list call) : World :=
  {| fs := fs w; net := net w; console := console w ++ c |}.

Definition print_term (term : Term) : list call :=
  [Printf "  Duration: %s\n" [S_ (Duration term)];
   Printf "  Operator: %s\n" [S_ (Operator term)];
   Printf "  Threshold: %s\n" [S_ (Threshold term)];
   Printf "  Time Function: %s\n" [S_ (TimeFunction term)];
   Printf "  Priority: %s\n" [S_ (Priority term)]].

Definition print_condition (condition : NRQLCondition) : list call :=
  [Printf "Name: %s\n" [S_ (Name condition)]; Println [S_ "Terms:"]]
    ++ concat (map print_term (Terms condition)) ++ [Println []].

Definition main (w : World) : World :=
  let '(config, err) := loadConfig (fs w) "config.json" in
  match err, config with
  | Some err, _ => print w [Println [S_ "Error loading configuration:"; E_ err]]
  | None, None => w
  | None, Some config =>
      let '(nrqlConditions, err) :=
        fetchNRQLConditions (net w) (APIKey config) (AlertPolicyID config) in
      match err with
      | Some err => print w [Printf "Error fetching NRQL alert conditions: %v\n" [E_ err]]
      | None =>
          let w := print w (Printf "NRQL Alert Conditions for Policy ID %s:\n"
                              [S_ (AlertPolicyID config)]
                            :: concat (map print_condition nrqlConditions)) in
          let '(fs', err) :=
            SaveNRQLConditionsAsCSV (AlertPolicyID config +:+ ".csv") nrqlConditions (fs w) in
          let w := {| fs := fs'; net := net w; console := console w |} in
          match err with
          | Some err => print w [Println [S_ "Error:"; E_ err]]
          | None => print w [Println [S_ "CSV file saved successfully"]]
          end
      end
  end.

(** ** Notions the statements use *)

(** The kinds of error, by the Go value that carries them. *)
Definition ReadError (e : error) : Prop :=
  exists path reason, e = PathError "open" path reason.
Definition ParseError (e : error) : Prop :=
  e = SyntaxError \/ e = UnexpectedEOF \/ e = EOF \/ exists v, e = UnmarshalTypeError v.
Definition ResponseShapeError (e : error) : Prop := exists msg, e = Errorf msg.
Definition ThresholdFormatError (e : error) : Prop :=
  exists num kind, e = NumError "ParseFloat" num kind.

Fixpoint all_digits (s : string) : bool :=
  match s with
  | EmptyString => true
  | String c s' => is_digit c && all_digits s'
  end.

Definition digits1 (s : string) : bool :=
  match s with EmptyString => false | _ => all_digits s end.

(** An optional minus sign, then one decimal digit or more: no point, no
    fraction, no exponent. *)
Definition decimal_integer (s : string) : bool :=
  match s with
  | String c s' => if eqc c "-" then digits1 s' else digits1 s
  | EmptyString => false
  end.

Definition finite (f : float64) : bool :=
  match f with
  | SpecFloat.S754_zero _ | SpecFloat.S754_finite _ _ _ => true
  | _ => false
  end.

(** *** Every check on the response, in the order of the checks

    What is wrong with a list of conditions, as a list.  The entries come in
    the order in which the checks are due: the conditions in the order of
    the list; within a condition name, enabled, terms, and then the terms in
    the order of their list; within a term duration, operator, threshold
    (first that it is a string, then that the string is a number),
    time_function, priority.  An element that is no object has no fields to
    look at. *)

Inductive violation :=
| NotAnObject (what : string)
| BadField (field rest : string)
| BadThreshold (e : error).

Definition want_string (m : gmap string Value) (field : string) : list violation :=
  match m !! field with
  | Some (VString _) => []
  | _ => [BadField field " is not a string"]
  end.

Definition want_bool (m : gmap string Value) (field : string) : list violation :=
  match m !! field with
  | Some (VBool _) => []
  | _ => [BadField field " is not a boolean"]
  end.

Definition want_number (m : gmap string Value) (field : string) : list violation :=
  match m !! field with
  | Some (VString raw) =>
      match snd (strconv.ParseFloat raw) with
      | Some e => [BadThreshold e]
      | None => []
      end
  | _ => []
  end.

Definition term_violations (term : Value) : list violation :=
  match term with
  | VMap m =>
      want_string m "duration" ++ want_string m "operator"
        ++ want_string m "threshold" ++ want_number m "threshold"
        ++ want_string m "time_function" ++ want_string m "priority"
  | _ => [NotAnObject "term"]
  end.

Definition condition_violations (condition : Value) : list violation :=
  match condition with
  | VMap m =>
      want_string m "name" ++ want_bool m "enabled"
        ++ match m !! "terms" with
           | Some (VSlice terms) => concat (map term_violations terms)
           | _ => [BadField "terms" " not found or has incorrect type"]
           end
  | _ => [NotAnObject "nrql condition"]
  end.

Definition violations (conditions : list Value) : list violation :=
  concat (map condition_violations conditions).

(** The error that tells of a violation. *)
Definition describe (v : violation) : error :=
  match v with
  | NotAnObject what => Errorf (what +:+ " has incorrect type")
  | BadField field rest => Errorf (field +:+ " field" +:+ rest)
  | BadThreshold e => e
  end.

(** The fields the fetch step checks. *)
Definition checked_fields : list string :=
  ["nrql_conditions"; "name"; "enabled"; "terms"; "duration"; "operator";
   "threshold"; "time_function"; "priority"].

Fixpoint prefix (p s : string) : bool :=
  match p, s with
  | EmptyString, _ => true
  | String a p', String b s' => eqc a b && prefix p' s'
  | _, EmptyString => false
  end.

Fixpoint mentions (word s : string) : bool :=
  prefix word s || match s with String _ s' => mentions word s' | EmptyString => false end.

(** [strconv.Quote] on printable ASCII without quote or backslash, where it
    only adds the quotes; [None] elsewhere. *)
Definition Quote (s : string) : option string :=
  if csv.contains (fun c => negb (between " " c "~") || eqc c dquote || eqc c json.backslash) s
  then None else Some (String dquote s +:+ String dquote "").

(** [err.Error()] for the errors whose text the statements need. *)
Definition Error_text (e : error) : option string :=
  match e with
  | Errorf msg => Some msg
  | NumError func num kind =>
      match Quote num with
      | Some quoted =>
          Some ("strconv." +:+ func +:+ ": parsing " +:+ quoted +:+ ": "
                  +:+ match kind with
                      | ErrSyntax => "invalid syntax"
                      | ErrRange => "value out of range"
                      end)
      | None => None
      end
  | PathError op path reason => Some (op +:+ " " +:+ path +:+ ": " +:+ reason)
  | _ => None
  end.

(** A string between double quotes. *)
Definition q (s : string) : string := String dquote s +:+ String dquote "".


(** *** The CSV file, as the reader of the file sees it *)

(** The records a writer has written, as bytes. *)
Definition csv_text (records : list (list string)) : string :=
  foldr (fun record text => csv.record_bytes record +:+ text) "" records.

Definition header_line : string :=
  "Condition Name,Duration,Operator,Threshold,Time Function,Priority,Active"
    +:+ String LF "".

(** One row per term, conditions in their order and terms in theirs; the
    row starts with the name of the term's condition and ends with the
    condition's flag. *)
Definition rows_of (conditions : list NRQLCondition) : list (list string) :=
  flat_map (fun c =>
    map (fun t => [Name c; Duration t; Operator t; Threshold t; TimeFunction t;
                   Priority t; if Enabled c then "true" else "false"])
        (Terms c)) conditions.

Definition total_terms (conditions : list NRQLCondition) : nat :=
  sum_list (map (fun c => length (Terms c)) conditions).

(** The rows of a CSV text: the line feeds that are not between quotes. *)
Fixpoint count_rows (quoted : bool) (s : string) : nat :=
  match s with
  | EmptyString => 0%nat
  | String c s' =>
      if eqc c dquote then count_rows (negb quoted) s'
      else if eqc c LF && negb quoted then S (count_rows quoted s')
      else count_rows quoted s'
  end.

Definition csv_rows (s : string) : nat := count_rows false s.

(** *** What a configuration text gives *)

(** The values the members of an object give to the keys that name [field],
    in the order of the document. *)
Definition bound (field : string) (members : list (string * json.value)) : list json.value :=
  map snd (List.filter (fun kv => names kv.1 field) members).

Definition string_values (vs : list json.value) : list string :=
  omap (fun v => match v with json.Str s => Some s | _ => None end) vs.

(** The last string a field is given, the empty string when it is given none. *)
Definition last_string (field : string) (members : list (string * json.value)) : string :=
  default "" (last (string_values (bound field members))).

Definition mistyped (v : json.value) : option error :=
  match v with
  | json.Str _ | json.Null => None
  | json.Number _ => Some (UnmarshalTypeError "number")
  | json.Bool _ => Some (UnmarshalTypeError "bool")
  | json.Array _ => Some (UnmarshalTypeError "array")
  | json.Object _ => Some (UnmarshalTypeError "object")
  end.

(** The values of the two fields that are neither a string nor [null]. *)
Definition type_errors (members : list (string * json.value)) : list error :=
  omap mistyped
    (map snd (List.filter (fun kv => names kv.1 "apiKey" || names kv.1 "alertPolicyID") members)).

(** The configuration a text stands for, or the decoder's error: only the
    first JSON value of the text counts; it has to be an object or [null]. *)
Definition config_of (data : string) : Config + error :=
  match json.readValue data with
  | inr e => inr e
  | inl json.Null => inl {| APIKey := ""; AlertPolicyID := "" |}
  | inl (json.Object members) =>
      match type_errors members with
      | e :: _ => inr e
      | [] => inl {| APIKey := last_string "apiKey" members;
                     AlertPolicyID := last_string "alertPolicyID" members |}
      end
  | inl (json.Array _) => inr (UnmarshalTypeError "array")
  | inl (json.Str _) => inr (UnmarshalTypeError "string")
  | inl (json.Number _) => inr (UnmarshalTypeError "number")
  | inl (json.Bool _) => inr (UnmarshalTypeError "bool")
  end.

(** The shape [{ apiKey: string, alertPolicyID: string }]. *)
Definition has_shape (v : json.value) : bool :=
  match v with
  | json.Object members =>
      let gives (field : string) :=
        existsb (fun kv => bool_decide (kv.1 = field)
                           && match kv.2 with json.Str _ => true | _ => false end) members in
      gives "apiKey" && gives "alertPolicyID"
  | _ => false
  end.

(** A scanner's token is an error of one of two kinds, or no error. *)
Definition token_ok (t : json.token) : Prop :=
  match t with
  | json.TError e => e = SyntaxError \/ e = UnexpectedEOF
  | _ => True
  end.

Definition mode_ok (m : json.mode) : Prop :=
  match m with
  | json.InLiteral _ tok => token_ok tok
  | _ => True
  end.

(** *** Reading a CSV text back

    The rules of RFC 4180: a field that starts with a double quote runs to
    the next double quote that is not doubled, and a doubled one stands for
    one; commas and line feeds outside quotes end a field and a row. *)

Inductive read_mode := Bare | Quoted | QuoteSeen.

(** [rows] and [row] are the rows and the fields read so far, [cur] the
    bytes of the field being read. *)
Fixpoint csv_read_from (rows : list (list string)) (row : list string) (cur : string)
    (m : read_mode) (s : string) : list (list string) :=
  match s with
  | EmptyString =>
      match m, row, cur with
      | Bare, [], EmptyString => rows
      | _, _, _ => rows ++ [row ++ [cur]]
      end
  | String c s' =>
      let unquoted :=
        if eqc c "," then csv_read_from rows (row ++ [cur]) "" Bare s'
        else if eqc c LF then csv_read_from (rows ++ [row ++ [cur]]) [] "" Bare s'
        else csv_read_from rows row (cur +:+ String c "") Bare s' in
      match m with
      | Bare =>
          if eqc c dquote && bool_decide (cur = "")
          then csv_read_from rows row "" Quoted s' else unquoted
      | Quoted =>
          if eqc c dquote then csv_read_from rows row cur QuoteSeen s'
          else csv_read_from rows row (cur +:+ String c "") Quoted s'
      | QuoteSeen =>
          if eqc c dquote then csv_read_from rows row (cur +:+ String dquote "") Quoted s'
          else unquoted
      end
  end.

Definition csv_read (s : string) : list (list string) := csv_read_from [] [] "" Bare s.

(** *** Sample inputs *)

Definition sample_term (threshold : string) : gmap string Value :=
  {[ "duration" := VString "5"; "operator" := VString "above";
     "threshold" := VString threshold; "time_function" := VString "all";
     "priority" := VString "critical" ]}.

Definition sample_response (terms : list Value) : gmap string Value :=
  {[ "nrql_conditions" :=
       VSlice [VMap {[ "name" := VString "cpu"; "enabled" := VBool true;
                       "terms" := VSlice terms ]}] ]}.

(** A term whose threshold is no number and whose time_function is missing. *)
Definition response_abc : gmap string Value :=
  sample_response [VMap (delete "time_function" (sample_term "abc"))].

Definition response_no_operator : gmap string Value :=
  sample_response [VMap (delete "operator" (sample_term "1"))].

Definition response_NaN : gmap string Value :=
  sample_response [VMap (sample_term "NaN")].

Definition response_7_5 : gmap string Value :=
  sample_response [VMap (sample_term "7.5")].

Definition sample_conditions : list NRQLCondition :=
  [{| Name := "cpu, high";
      Terms := [{| Duration := "5"; Operator := "above"; Threshold := "8";
                   TimeFunction := "all"; Priority := "critical" |};
                {| Duration := "10"; Operator := "above"; Threshold := "7";
                   TimeFunction := "any"; Priority := "warning" |}];
      Enabled := true |};
   {| Name := "idle"; Terms := []; Enabled := false |}].

(** A file system where the output of an earlier, longer run is in place. *)
Definition sample_fs : FileSystem :=
  {| files := {[ "42.csv" := header_line +:+ csv_text (rows_of (sample_conditions ++ sample_conditions)) ]};
     denied := ∅; dirs := ∅; room := None |}.

(** The text of a configuration file with both fields. *)
Definition sample_config : string :=
  "{" +:+ q "apiKey" +:+ ":" +:+ q "k" +:+ "," +:+ q "alertPolicyID" +:+ ":" +:+ q "42" +:+ "}".

(** A run where the API answers every request with [body]. *)
Definition sample_world (body : string) : World :=
  {| fs := {| files := {[ "config.json" := sample_config ]}; denied := ∅; dirs := ∅; room := None |};
     net := {| NewRequest := fun _ => None; Do := fun _ _ => inl body |};
     console := [] |}.

(** *** What a fetched term and a fetched condition come from *)

(** [term] is what the fetch step makes of the element [t]: every field is
    the string found under its key, the threshold the formatted one. *)
Definition term_from (t : Value) (term : Term) : Prop :=
  exists m raw,
    t = VMap m
    /\ m !! "duration" = Some (VString (Duration term))
    /\ m !! "operator" = Some (VString (Operator term))
    /\ m !! "threshold" = Some (VString raw)
    /\ formatThreshold raw = (Threshold term, None)
    /\ m !! "time_function" = Some (VString (TimeFunction term))
    /\ m !! "priority" = Some (VString (Priority term)).

Definition condition_from (c : Value) (condition : NRQLCondition) : Prop :=
  exists m terms,
    c = VMap m
    /\ m !! "name" = Some (VString (Name condition))
    /\ m !! "enabled" = Some (VBool (Enabled condition))
    /\ m !! "terms" = Some (VSlice terms)
    /\ Forall2 term_from terms (Terms condition).

(** [threshold] is the zero-digit print of the float64 that the string [raw]
    parses to: a decimal integer when that float is finite, one of three
    words when it is not. *)
Definition threshold_of (raw threshold : string) : Prop :=
  exists f, strconv.ParseFloat raw = (f, None) /\ threshold = fmt.Sprintf_f0 f /\
    if finite f then decimal_integer threshold = true
    else threshold ∈ ["NaN"; "+Inf"; "-Inf"].

(** The threshold of [term] is that print for the string which the element
    [t] holds under its threshold key. *)
Definition threshold_from (t : Value) (term : Term) : Prop :=
  exists m raw,
    t = VMap m
    /\ m !! "threshold" = Some (VString raw)
    /\ threshold_of raw (Threshold term).

(** The terms of [condition] stand one for one, in order, for the elements
    which [c] holds under terms, each with the threshold of its own element. *)
Definition thresholds_from (c : Value) (condition : NRQLCondition) : Prop :=
  exists m termsData,
    c = VMap m
    /\ m !! "terms" = Some (VSlice termsData)
    /\ Forall2 threshold_from termsData (Terms condition).

(** A directory where the configuration file is looked for. *)
Definition folder_fs : FileSystem :=
  {| files := ∅; denied := {[ "config.json" ]}; dirs := {[ "config.json" ]}; room := None |}.

(** A device with room for ten bytes, and an earlier output in place. *)
Definition small_fs : FileSystem :=
  {| files := {[ "42.csv" := "old rows" ]}; denied := ∅; dirs := ∅; room := Some 10 |}.

(** *** Paths and configuration texts *)

Fixpoint has_suffix (suffix s : string) : bool :=
  bool_decide (s = suffix)
  || match s with String _ s' => has_suffix suffix s' | EmptyString => false end.

(** Printable ASCII other than the double quote and the backslash: the bytes
    that stand for themselves in a JSON string. *)
Definition plain_byte (c : ascii) : bool :=
  between " " c "~" && negb (eqc c dquote) && negb (eqc c json.backslash).

Fixpoint plain (s : string) : bool :=
  match s with
  | EmptyString => true
  | String c s' => plain_byte c && plain s'
  end.

(** The configuration file that holds the two fields, without blanks. *)
Definition config_text (apiKey alertPolicyID : string) : string :=
  "{" +:+ q "apiKey" +:+ ":" +:+ q apiKey +:+ "," +:+ q "alertPolicyID" +:+ ":"
      +:+ q alertPolicyID +:+ "}".

(** Nothing but the blanks that JSON allows between tokens. *)
Fixpoint blank (s : string) : bool :=
  match s with
  | EmptyString => true
  | String c s' => json.isSpace c && blank s'
  end.

(** The call of line 68, which [main] makes last when all went well. *)
Definition saved_line : call := Println [S_ "CSV file saved successfully"].

(** The text of a response with one condition of one term. *)
Definition sample_body : string :=
  "{" +:+ q "nrql_conditions" +:+ ":[{" +:+ q "name" +:+ ":" +:+ q "cpu" +:+ ","
      +:+ q "enabled" +:+ ":true," +:+ q "terms" +:+ ":[{"
      +:+ q "duration" +:+ ":" +:+ q "5" +:+ "," +:+ q "operator" +:+ ":" +:+ q "above" +:+ ","
      +:+ q "threshold" +:+ ":" +:+ q "7.5" +:+ "," +:+ q "time_function" +:+ ":" +:+ q "all"
      +:+ "," +:+ q "priority" +:+ ":" +:+ q "critical" +:+ "}]}]}".

Definition sample_found : list NRQLCondition :=
  [{| Name := "cpu";
      Terms := [{| Duration := "5"; Operator := "above"; Threshold := "8";
                   TimeFunction := "all"; Priority := "critical" |}];
      Enabled := true |}].

(** * Properties *)

(** ** Strings *)

Lemma sapp_cons c s t : String c s +:+ t = String c (s +:+ t).
Proof. reflexivity. Qed.

Lemma sapp_nil_l s : "" +:+ s = s.
Proof. reflexivity. Qed.

Lemma sapp_nil_r s : s +:+ "" = s.
Proof. induction s as [|c s IH]; [reflexivity|]. rewrite sapp_cons, IH. reflexivity. Qed.

Lemma sapp_assoc s t u : (s +:+ t) +:+ u = s +:+ (t +:+ u).
Proof. induction s as [|c s IH]; [reflexivity|]. rewrite !sapp_cons, IH. reflexivity. Qed.

(** ** Thresholds *)

Lemma string_of_uint_digits d : all_digits (NilEmpty.string_of_uint d) = true.
Proof. induction d; simpl; auto. Qed.

Lemma to_uint_cons n : exists c s, NilEmpty.string_of_uint (N.to_uint n) = String c s.
Proof.
  destruct n as [|p]; [by eexists _, _|].
  simpl. pose proof (DecimalPos.Unsigned.to_uint_nonnil p) as Hnil.
  destruct (Pos.to_uint p); [congruence|..]; by eexists _, _.
Qed.

Lemma decimal_digits1 n : digits1 (fmt.decimal n) = true.
Proof.
  unfold fmt.decimal. destruct (to_uint_cons (Z.to_N n)) as (c & s & Hs).
  pose proof (string_of_uint_digits (N.to_uint (Z.to_N n))) as Hd.
  rewrite Hs in *. exact Hd.
Qed.

Lemma decimal_integer_signed (sign : bool) n :
  decimal_integer ((if sign then "-" else "") +:+ fmt.decimal n) = true.
Proof.
  pose proof (decimal_digits1 n) as Hd.
  destruct sign.
  - exact Hd.
  - rewrite sapp_nil_l. destruct (fmt.decimal n) as [|c s] eqn:E; [done|].
    unfold decimal_integer. destruct (eqc c "-") eqn:Ec; [|done].
    apply Ascii.eqb_eq in Ec. subst c. done.
Qed.

(** A finite float64 prints as a decimal integer; the others print as one
    of three words. *)
Lemma Sprintf_f0_shape f :
  if finite f then decimal_integer (fmt.Sprintf_f0 f) = true
  else fmt.Sprintf_f0 f ∈ ["NaN"; "+Inf"; "-Inf"].
Proof.
  destruct f as [[]|[]| |s m e]; simpl; try done; try set_solver.
  apply decimal_integer_signed.
Qed.

(** C2: [formatThreshold] turns 7.4 into 7 and 7.5 into 8, and for abc it
    returns no value but a ThresholdFormatError, the syntax error of
    [strconv.ParseFloat]. *)
Theorem formatThreshold_examples :
  formatThreshold "7.4" = ("7", None) /\
  formatThreshold "7.5" = ("8", None) /\
  formatThreshold "abc" = ("", Some (NumError "ParseFloat" "abc" ErrSyntax)) /\
  ThresholdFormatError (NumError "ParseFloat" "abc" ErrSyntax).
Proof.
  repeat split; try (vm_compute; reflexivity).
  by exists "abc", ErrSyntax.
Qed.

(** The model of [strconv.ParseFloat] and of [%.f] on inputs whose results
    are known: ties go to the even neighbour, twice; the sign of zero is
    kept; underscores separate digits; a number beyond the largest float64
    is a range error. *)
Example formatThreshold_ties :
  map formatThreshold ["0.5"; "1.5"; "2.5"; "-0.4"; "1e23"; "9007199254740993"]
  = [("0", None); ("2", None); ("2", None); ("-0", None);
     ("99999999999999991611392", None); ("9007199254740992", None)].
Proof. vm_compute. reflexivity. Qed.

Example formatThreshold_syntax :
  map formatThreshold ["1_000.5"; "0x1.8p1"; "+.5e1"; "1e400"; "1__0"; "7.5 "]
  = [("1000", None); ("3", None); ("5", None);
     ("", Some (NumError "ParseFloat" "1e400" ErrRange));
     ("", Some (NumError "ParseFloat" "1__0" ErrSyntax));
     ("", Some (NumError "ParseFloat" "7.5 " ErrSyntax))].
Proof. vm_compute. reflexivity. Qed.

(** ** The fetch step *)

Arguments formatThreshold : simpl never.
Arguments strconv.ParseFloat : simpl never.

Lemma formatThreshold_inv raw :
  match strconv.ParseFloat raw with
  | (f, None) => formatThreshold raw = (fmt.Sprintf_f0 f, None)
  | (_, Some e) => formatThreshold raw = ("", Some e)
  end.
Proof. unfold formatThreshold. by destruct (strconv.ParseFloat raw) as [f [e|]]. Qed.

Lemma as_string_index m field :
  match as_string (index m field) with
  | (s, true) => m !! field = Some (VString s) /\ want_string m field = []
  | (_, false) => want_string m field = [BadField field " is not a string"]
  end.
Proof. unfold index, want_string. by destruct (m !! field) as [[]|]. Qed.

Lemma as_bool_index m field :
  match as_bool (index m field) with
  | (b, true) => m !! field = Some (VBool b) /\ want_bool m field = []
  | (_, false) => want_bool m field = [BadField field " is not a boolean"]
  end.
Proof. unfold index, want_bool. by destruct (m !! field) as [[]|]. Qed.

(** One round of the loop over the terms. *)
Lemma terms_loop_cons terms termData termsData' :
  terms_loop terms (termData :: termsData') =
    match term_violations termData with
    | v :: _ => inr (describe v)
    | [] =>
        match termData with
        | VMap m =>
            terms_loop
              (terms ++ [{| Duration := (as_string (index m "duration")).1;
                            Operator := (as_string (index m "operator")).1;
                            Threshold := (formatThreshold (as_string (index m "threshold")).1).1;
                            TimeFunction := (as_string (index m "time_function")).1;
                            Priority := (as_string (index m "priority")).1 |}])
              termsData'
        | _ => inr (Errorf "term has incorrect type")
        end
    end.
Proof.
  destruct termData as [| | | | |m]; try reflexivity.
  cbn [terms_loop as_map negb term_violations].
  pose proof (as_string_index m "duration") as H1.
  destruct (as_string (index m "duration")) as [d []]; [destruct H1 as [_ ->]|by rewrite H1].
  pose proof (as_string_index m "operator") as H2.
  destruct (as_string (index m "operator")) as [o []]; [destruct H2 as [_ ->]|by rewrite H2].
  pose proof (as_string_index m "threshold") as H3.
  destruct (as_string (index m "threshold")) as [t []]; [destruct H3 as [H3 ->]|by rewrite H3].
  cbn [negb app fst]. unfold want_number. rewrite H3.
  pose proof (formatThreshold_inv t) as H4.
  destruct (strconv.ParseFloat t) as [f [e|]]; rewrite H4; [reflexivity|].
  cbn [snd app fst].
  pose proof (as_string_index m "time_function") as H5.
  destruct (as_string (index m "time_function")) as [tf []]; [destruct H5 as [_ ->]|by rewrite H5].
  pose proof (as_string_index m "priority") as H6.
  destruct (as_string (index m "priority")) as [pr []]; [destruct H6 as [_ ->]|by rewrite H6].
  reflexivity.
Qed.

Lemma terms_loop_violations termsData : forall terms,
  match concat (map term_violations termsData) with
  | v :: _ => terms_loop terms termsData = inr (describe v)
  | [] => exists more, terms_loop terms termsData = inl (terms ++ more)
          /\ length more = length termsData
  end.
Proof.
  induction termsData as [|t l IH]; intros terms.
  - exists []. by rewrite app_nil_r.
  - rewrite terms_loop_cons. cbn [map concat].
    destruct (term_violations t) as [|v vs] eqn:Ev; [|reflexivity].
    cbn [app]. destruct t as [| | | | |m]; try discriminate Ev.
    match goal with |- context [terms_loop ?acc l] => specialize (IH acc) end.
    destruct (concat (map term_violations l)) as [|v vs]; [|exact IH].
    destruct IH as (more & -> & Hlen). eexists (_ :: more).
    split; [by rewrite <- List.app_assoc|]. simpl. by rewrite Hlen.
Qed.

(** One round of the loop over the conditions. *)
Lemma conditions_loop_cons nrqlConditions c conditions' :
  conditions_loop nrqlConditions (c :: conditions') =
    match condition_violations c with
    | v :: _ => ([], Some (describe v))
    | [] =>
        match c with
        | VMap m =>
            match terms_loop [] (as_slice (index m "terms")).1 with
            | inl terms =>
                conditions_loop
                  (nrqlConditions ++ [{| Name := (as_string (index m "name")).1;
                                         Terms := terms;
                                         Enabled := (as_bool (index m "enabled")).1 |}])
                  conditions'
            | inr e => ([], Some e)
            end
        | _ => ([], Some (Errorf "nrql condition has incorrect type"))
        end
    end.
Proof.
  destruct c as [| | | | |m]; try reflexivity.
  cbn [conditions_loop as_map negb condition_violations].
  pose proof (as_string_index m "name") as H1.
  destruct (as_string (index m "name")) as [n []]; [destruct H1 as [_ ->]|by rewrite H1].
  pose proof (as_bool_index m "enabled") as H2.
  destruct (as_bool (index m "enabled")) as [b []]; [destruct H2 as [_ ->]|by rewrite H2].
  cbn [negb app fst]. unfold index.
  destruct (m !! "terms") as [[| | | |l|]|]; try reflexivity.
  cbn [from_option as_slice negb fst id].
  pose proof (terms_loop_violations l []) as H3.
  destruct (concat (map term_violations l)) as [|v vs].
  - destruct H3 as (more & -> & _). reflexivity.
  - by rewrite H3.
Qed.

(** The loop stops at the first violation of the list and reports it;
    without one it adds a condition for each element. *)
Lemma conditions_loop_violations conditions : forall nrqlConditions,
  match violations conditions with
  | v :: _ => conditions_loop nrqlConditions conditions = ([], Some (describe v))
  | [] => exists more, conditions_loop nrqlConditions conditions = (nrqlConditions ++ more, None)
          /\ length more = length conditions
  end.
Proof.
  unfold violations.
  induction conditions as [|c l IH]; intros acc.
  - exists []. by rewrite app_nil_r.
  - rewrite conditions_loop_cons. cbn [map concat].
    destruct (condition_violations c) as [|v vs] eqn:Ev; [|reflexivity].
    cbn [app]. destruct c as [| | | | |m]; try discriminate Ev.
    destruct (terms_loop [] (as_slice (index m "terms")).1) as [terms|e] eqn:Et.
    + match goal with |- context [conditions_loop ?a l] => specialize (IH a) end.
      destruct (concat (map condition_violations l)) as [|v vs]; [|exact IH].
      destruct IH as (more & -> & Hlen). eexists (_ :: more).
      split; [by rewrite <- List.app_assoc|]. simpl. by rewrite Hlen.
    + exfalso. revert Ev Et. cbn [condition_violations]. unfold index.
      intros Ev. apply app_eq_nil in Ev as [_ Ev]. apply app_eq_nil in Ev as [_ Ev].
      destruct (m !! "terms") as [[| | | |ts|]|]; try discriminate Ev.
      cbn [from_option as_slice fst id]. pose proof (terms_loop_violations ts []) as H.
      rewrite Ev in H. destruct H as (more & -> & _). discriminate.
Qed.

(** The accumulator only matters on success, where it is a prefix. *)
Lemma conditions_loop_acc conditions : forall nrqlConditions,
  conditions_loop nrqlConditions conditions =
    match conditions_loop [] conditions with
    | (more, None) => (nrqlConditions ++ more, None)
    | (more, Some e) => (more, Some e)
    end.
Proof.
  induction conditions as [|c l IH]; intros acc.
  - simpl. by rewrite app_nil_r.
  - rewrite !conditions_loop_cons.
    destruct (condition_violations c); [|reflexivity].
    destruct c; try reflexivity.
    destruct (terms_loop _ _); [|reflexivity].
    rewrite (IH (acc ++ _)), (IH ([] ++ _)).
    destruct (conditions_loop [] l) as [more [e|]]; [reflexivity|].
    by rewrite <- List.app_assoc.
Qed.

Lemma conditions_loop_app before after : forall nrqlConditions,
  conditions_loop nrqlConditions (before ++ after) =
    match conditions_loop nrqlConditions before with
    | (found, None) => conditions_loop found after
    | (found, Some e) => (found, Some e)
    end.
Proof.
  induction before as [|c l IH]; intros acc; [reflexivity|].
  rewrite <- app_comm_cons, !conditions_loop_cons.
  destruct (condition_violations c); [|reflexivity].
  destruct c; try reflexivity.
  destruct (terms_loop _ _); [|reflexivity].
  apply IH.
Qed.

Lemma extract_violations data :
  extract data =
    match data !! "nrql_conditions" with
    | Some (VSlice conditions) => conditions_loop [] conditions
    | _ => ([], Some (Errorf "nrql_conditions field not found or has incorrect type"))
    end.
Proof. unfold extract, index. by destruct (data !! "nrql_conditions") as [[]|]. Qed.

(** C10: whatever the network answers and whatever the decoded tree holds,
    [fetchNRQLConditions] returns, and it returns either conditions and no
    error, or an error and the nil list: every assertion on the tree is the
    checked one, and no condition found before the error is handed out.  On
    the decoded tree: a tree without a list under [nrql_conditions], or with
    any violation in that list (an element that is no object, a field that
    is missing, [null] or of another type, a threshold that is no number),
    gives the error and nil; a tree without violation gives one condition
    per element. *)
Theorem fetch_all_or_nothing (net : Network) (apiKey policyID : string)
    (data : gmap string Value) :
  ((exists found, fetchNRQLConditions net apiKey policyID = (found, None)) \/
   (exists e, fetchNRQLConditions net apiKey policyID = ([], Some e)))
  /\ match data !! "nrql_conditions" with
     | Some (VSlice conditions) =>
         match violations conditions with
         | [] => exists found, extract data = (found, None)
                               /\ length found = length conditions
         | v :: _ => extract data = ([], Some (describe v))
         end
     | _ => extract data
            = ([], Some (Errorf "nrql_conditions field not found or has incorrect type"))
     end.
Proof.
  assert (forall d, (exists found, extract d = (found, None)) \/
                    (exists e, extract d = ([], Some e))) as Hx.
  { intros d. rewrite extract_violations.
    destruct (d !! "nrql_conditions") as [[| | | |l|]|]; try (right; by eexists).
    pose proof (conditions_loop_violations l []) as H.
    destruct (violations l).
    - destruct H as (more & -> & _). left. by eexists.
    - rewrite H. right. by eexists. }
  split.
  - unfold fetchNRQLConditions.
    destruct (NewRequest net _); [right; by eexists|].
    destruct (Do net _ _) as [body|e]; [|right; by eexists].
    destruct (Decode_map body) as [d [e|]]; [right; by eexists|].
    apply Hx.
  - rewrite extract_violations.
    destruct (data !! "nrql_conditions") as [[| | | |l|]|]; try reflexivity.
    pose proof (conditions_loop_violations l []) as H.
    destruct (violations l); [|exact H].
    destruct H as (more & -> & Hlen). by eexists.
Qed.

Lemma ParseFloat_error raw f e :
  strconv.ParseFloat raw = (f, Some e) -> exists kind, e = NumError "ParseFloat" raw kind.
Proof.
  unfold strconv.ParseFloat.
  destruct (strconv.special raw) as [[f' n]|].
  - destruct (n =? str_len raw); intros [= <- <-]. by eexists.
  - destruct (strconv.readFloat raw) as [n|]; [|intros [= <- <-]; by eexists].
    destruct (strconv.rest n); [|intros [= <- <-]; by eexists].
    destruct (strconv.is_inf _); intros [= <- <-]. by eexists.
Qed.

Lemma term_violations_sound term :
  Forall (fun v => match v with
                   | BadField field _ => field ∈ checked_fields
                   | BadThreshold e => ThresholdFormatError e
                   | NotAnObject _ => True
                   end) (term_violations term).
Proof.
  destruct term as [| | | | |m]; try by repeat constructor.
  unfold term_violations, want_string, want_number.
  repeat apply Forall_app_2;
    repeat match goal with
           | |- context [m !! ?k] => destruct (m !! k) as [[]|]
           end;
    try (by constructor); try (constructor; [set_solver|constructor]).
  destruct (strconv.ParseFloat s) as [f [e|]] eqn:E; [|constructor].
  constructor; [|constructor]. apply ParseFloat_error in E as [kind ->].
  by eexists _, _.
Qed.

Lemma violations_sound conditions :
  Forall (fun v => match v with
                   | BadField field _ => field ∈ checked_fields
                   | BadThreshold e => ThresholdFormatError e
                   | NotAnObject _ => True
                   end) (violations conditions).
Proof.
  unfold violations. induction conditions as [|c l IH]; [constructor|].
  cbn [map concat]. apply Forall_app_2; [|exact IH].
  destruct c as [| | | | |m]; try by repeat constructor.
  unfold condition_violations, want_string, want_bool.
  repeat apply Forall_app_2.
  - destruct (m !! "name") as [[]|]; try (by constructor);
      (constructor; [set_solver|constructor]).
  - destruct (m !! "enabled") as [[]|]; try (by constructor);
      (constructor; [set_solver|constructor]).
  - destruct (m !! "terms") as [[| | | |ts|]|];
      try (constructor; [set_solver|constructor]).
    induction ts as [|t ts IHts]; [constructor|].
    cbn [map concat]. apply Forall_app_2; [apply term_violations_sound|exact IHts].
Qed.

(** C5, amended: the fetch step checks field by field and reports the first
    violation of the response, in the order of the checks, and nothing after
    it.  When that is a missing or mis-typed attribute, the error's text
    starts with the name of the field, one of the checked ones; when it is an
    element that is no object, the text says so; when it is a threshold
    string that is no number, the error is the one [strconv.ParseFloat]
    gave, unchanged. *)
Theorem first_violation_reported (data : gmap string Value) (conditions : list Value) :
  data !! "nrql_conditions" = Some (VSlice conditions) ->
  match violations conditions with
  | [] => exists found, extract data = (found, None)
  | BadField field rest :: _ =>
      extract data = ([], Some (Errorf (field +:+ " field" +:+ rest)))
      /\ field ∈ checked_fields
  | NotAnObject what :: _ =>
      extract data = ([], Some (Errorf (what +:+ " has incorrect type")))
  | BadThreshold e :: _ =>
      extract data = ([], Some e) /\ ThresholdFormatError e
  end.
Proof.
  intros Hdata. rewrite extract_violations, Hdata.
  pose proof (conditions_loop_violations conditions []) as H.
  pose proof (violations_sound conditions) as Hs.
  destruct (violations conditions) as [|v vs].
  - destruct H as (more & -> & _). by eexists.
  - apply Forall_cons_1 in Hs as [Hv _]. destruct v; simpl in H; auto.
Qed.

Lemma first_violation_reported_witness :
  extract response_no_operator
    = ([], Some (Errorf ("operator" +:+ " field" +:+ " is not a string")))
  /\ "operator" ∈ checked_fields.
Proof.
  exact (first_violation_reported response_no_operator
           [VMap {[ "name" := VString "cpu"; "enabled" := VBool true;
                    "terms" := VSlice [VMap (delete "operator" (sample_term "1"))] ]}]
           eq_refl).
Defined.

(** C5, as stated, fails: for a term whose threshold is the string abc and
    whose time_function is missing, the error is the one of the float
    parser; its text names none of the checked fields, neither threshold nor
    the missing time_function. *)
Lemma threshold_error_names_no_field :
  extract response_abc = ([], Some (NumError "ParseFloat" "abc" ErrSyntax))
  /\ Error_text (NumError "ParseFloat" "abc" ErrSyntax)
       = Some ("strconv.ParseFloat: parsing " +:+ q "abc" +:+ ": invalid syntax")
  /\ Forall (fun field =>
               mentions field ("strconv.ParseFloat: parsing " +:+ q "abc" +:+ ": invalid syntax")
               = false) checked_fields.
Proof.
  split; [vm_compute; reflexivity|]. split; [vm_compute; reflexivity|].
  repeat constructor.
Qed.

(** ** The CSV writer *)

Lemma file_Write_ok fs name b fs' :
  file_Write fs name b = (fs', None) ->
  files fs' = <[name := default "" (files fs !! name) +:+ b]> (files fs).
Proof.
  unfold file_Write. destruct (room fs) as [r|]; [|by intros [= <-]].
  destruct (_ <=? r); [by intros [= <-]|discriminate].
Qed.

Lemma Write_appends w record fs w' fs' data :
  csv.Write w record fs = (w', fs', None) ->
  files fs !! csv.w_file w = Some data ->
  files fs' !! csv.w_file w = Some (data +:+ csv.record_bytes record)
  /\ csv.w_file w' = csv.w_file w.
Proof.
  unfold csv.Write. destruct (csv.w_err w); [discriminate|].
  destruct (file_Write fs _ _) as [fs1 err] eqn:E. intros [= <- <- ->] Hdata.
  apply file_Write_ok in E. rewrite E, Hdata, lookup_insert_eq. done.
Qed.

Lemma save_terms_appends condition terms : forall w fs w' fs' data,
  save_terms w condition terms fs = (w', fs', None) ->
  files fs !! csv.w_file w = Some data ->
  files fs' !! csv.w_file w = Some (data +:+ csv_text (map (record_of condition) terms))
  /\ csv.w_file w' = csv.w_file w.
Proof.
  induction terms as [|t ts IH]; intros w fs w' fs' data.
  - intros [= <- <-] Hdata. by rewrite sapp_nil_r.
  - cbn [save_terms]. destruct (csv.Write w _ fs) as [[w1 fs1] [e|]] eqn:E; [discriminate|].
    intros Hrest Hdata. destruct (Write_appends _ _ _ _ _ _ E Hdata) as [H1 Hw1].
    rewrite <- Hw1 in H1. destruct (IH _ _ _ _ _ Hrest H1) as [H2 Hw2].
    rewrite Hw1 in H2, Hw2. split; [|exact Hw2].
    rewrite H2. cbn [map csv_text foldr]. by rewrite sapp_assoc.
Qed.

Lemma csv_text_app r1 r2 : csv_text (r1 ++ r2) = csv_text r1 +:+ csv_text r2.
Proof.
  induction r1 as [|r rs IH]; [reflexivity|].
  cbn [app csv_text foldr]. fold (csv_text (rs ++ r2)). fold (csv_text rs).
  by rewrite IH, sapp_assoc.
Qed.

Lemma record_of_row c t :
  record_of c t = [Name c; Duration t; Operator t; Threshold t; TimeFunction t;
                   Priority t; if Enabled c then "true" else "false"].
Proof. reflexivity. Qed.

Lemma save_conditions_appends conditions : forall w fs w' fs' data,
  save_conditions w conditions fs = (w', fs', None) ->
  files fs !! csv.w_file w = Some data ->
  files fs' !! csv.w_file w = Some (data +:+ csv_text (rows_of conditions))
  /\ csv.w_file w' = csv.w_file w.
Proof.
  induction conditions as [|c cs IH]; intros w fs w' fs' data.
  - intros [= <- <-] Hdata. by rewrite sapp_nil_r.
  - cbn [save_conditions].
    destruct (save_terms w c (Terms c) fs) as [[w1 fs1] [e|]] eqn:E; [discriminate|].
    intros Hrest Hdata. destruct (save_terms_appends _ _ _ _ _ _ _ E Hdata) as [H1 Hw1].
    rewrite <- Hw1 in H1. destruct (IH _ _ _ _ _ Hrest H1) as [H2 Hw2].
    rewrite Hw1 in H2, Hw2. split; [|exact Hw2].
    rewrite H2. unfold rows_of. cbn [flat_map]. fold (rows_of cs).
    rewrite csv_text_app, sapp_assoc. do 3 f_equal.
Qed.

Lemma header_bytes : csv.record_bytes header = header_line.
Proof. vm_compute. reflexivity. Qed.

(** What a successful [SaveNRQLConditionsAsCSV] leaves in the file. *)
Lemma save_content filename conditions fs fs' :
  SaveNRQLConditionsAsCSV filename conditions fs = (fs', None) ->
  files fs' !! filename = Some (header_line +:+ csv_text (rows_of conditions)).
Proof.
  unfold SaveNRQLConditionsAsCSV, os_Create.
  destruct (bool_decide _); [discriminate|].
  destruct (csv.Write _ header _) as [[w1 fs1] [e|]] eqn:E1; [discriminate|].
  destruct (save_conditions w1 conditions fs1) as [[w2 fs2] [e|]] eqn:E2; [discriminate|].
  cbn [csv.Flush]. destruct (csv.Error w2); [discriminate|]. intros [= <-].
  eapply Write_appends in E1 as [H1 Hw1].
  2:{ cbn [csv.NewWriter csv.w_file with_files files]. apply lookup_insert_eq. }
  rewrite <- Hw1 in H1.
  eapply save_conditions_appends in E2 as [H2 _]; [|exact H1].
  rewrite Hw1 in H2. cbn [csv.NewWriter csv.w_file] in H2.
  by rewrite H2, header_bytes.
Qed.

(** *** Counting rows *)

Lemma count_rows_plain quoted field rest :
  csv.contains csv.special field = false ->
  count_rows quoted (field +:+ rest) = count_rows quoted rest.
Proof.
  induction field as [|c f IH]; [reflexivity|].
  cbn [csv.contains]. intros [Hc Hf]%orb_false_iff.
  rewrite sapp_cons. cbn [count_rows]. unfold csv.special in Hc.
  apply orb_false_iff in Hc as [Hc _]. apply orb_false_iff in Hc as [Hc Hq].
  apply orb_false_iff in Hc as [Hlf _]. rewrite Hq, Hlf. cbn [andb]. by apply IH.
Qed.

Lemma count_rows_escape field rest :
  count_rows true (csv.escape field +:+ rest) = count_rows true rest.
Proof.
  induction field as [|c f IH]; [reflexivity|].
  cbn [csv.escape]. destruct (eqc c dquote) eqn:Ec.
  - rewrite !sapp_cons. cbn [count_rows]. by rewrite Ascii.eqb_refl.
  - rewrite sapp_cons. cbn [count_rows]. rewrite Ec, andb_false_r. exact IH.
Qed.

Lemma fieldNeedsQuotes_false field :
  csv.fieldNeedsQuotes field = false -> csv.contains csv.special field = false.
Proof.
  unfold csv.fieldNeedsQuotes.
  case_bool_decide as E1; [by rewrite E1|].
  case_bool_decide; [done|].
  by destruct (csv.contains csv.special field).
Qed.

Lemma count_rows_field field rest :
  count_rows false (csv.field_bytes field +:+ rest) = count_rows false rest.
Proof.
  unfold csv.field_bytes. destruct (csv.fieldNeedsQuotes field) eqn:E.
  - rewrite sapp_assoc, sapp_cons. cbn [count_rows]. rewrite Ascii.eqb_refl.
    cbn [negb]. rewrite count_rows_escape. rewrite sapp_cons. cbn [count_rows].
    by rewrite Ascii.eqb_refl.
  - by apply count_rows_plain, fieldNeedsQuotes_false.
Qed.

Lemma count_rows_fields record : forall n rest,
  count_rows false (csv.fields_bytes n record +:+ rest) = count_rows false rest.
Proof.
  induction record as [|f fs IH]; intros n rest; [reflexivity|].
  cbn [csv.fields_bytes]. rewrite !sapp_assoc.
  destruct (0 <? n)%nat.
  - rewrite sapp_cons. cbn [count_rows].
    replace (eqc "," dquote) with false by reflexivity.
    replace (eqc "," LF) with false by reflexivity.
    cbn [andb]. rewrite sapp_nil_l, count_rows_field. apply IH.
  - rewrite sapp_nil_l, count_rows_field. apply IH.
Qed.

Lemma count_rows_record record rest :
  count_rows false (csv.record_bytes record +:+ rest) = S (count_rows false rest).
Proof.
  unfold csv.record_bytes. rewrite sapp_assoc, count_rows_fields.
  rewrite sapp_cons. cbn [count_rows].
  replace (eqc LF dquote) with false by reflexivity.
  by rewrite Ascii.eqb_refl.
Qed.

Lemma count_rows_text records : count_rows false (csv_text records) = length records.
Proof.
  induction records as [|r rs IH]; [reflexivity|].
  cbn [csv_text foldr]. fold (csv_text rs). by rewrite count_rows_record, IH.
Qed.

Lemma rows_of_length conditions : length (rows_of conditions) = total_terms conditions.
Proof.
  unfold rows_of, total_terms. induction conditions as [|c cs IH]; [reflexivity|].
  cbn [flat_map map sum_list]. by rewrite length_app, length_map, IH.
Qed.


(** C1: a successful [SaveNRQLConditionsAsCSV] leaves a file of exactly one
    row more than there are terms in all the conditions together, the header
    and one row per term; with no condition the file is the header alone. *)
Theorem csv_row_count (filename : string) (conditions : list NRQLCondition)
    (fs fs' : FileSystem) :
  SaveNRQLConditionsAsCSV filename conditions fs = (fs', None) ->
  exists content,
    files fs' !! filename = Some content
    /\ csv_rows content = (1 + total_terms conditions)%nat
    /\ (conditions = [] -> content = header_line).
Proof.
  intros H. apply save_content in H. eexists. split; [exact H|]. split.
  - unfold csv_rows. rewrite <- header_bytes, count_rows_record, count_rows_text.
    by rewrite rows_of_length.
  - intros ->. apply sapp_nil_r.
Qed.

Lemma csv_row_count_witness :
  exists content,
    files (SaveNRQLConditionsAsCSV "42.csv" sample_conditions sample_fs).1 !! "42.csv"
      = Some content
    /\ csv_rows content = 3%nat
    /\ (sample_conditions = [] -> content = header_line).
Proof.
  apply (csv_row_count "42.csv" sample_conditions sample_fs). vm_compute. reflexivity.
Defined.

(** C6: a successful [SaveNRQLConditionsAsCSV] leaves in the file the fixed
    header line and then one row per term, conditions in the order given and
    terms in their order within the condition; a row starts with the name of
    its condition and ends with the condition's flag, spelled true or
    false. *)
Theorem csv_header_and_rows (filename : string) (conditions : list NRQLCondition)
    (fs fs' : FileSystem) :
  SaveNRQLConditionsAsCSV filename conditions fs = (fs', None) ->
  files fs' !! filename =
    Some ("Condition Name,Duration,Operator,Threshold,Time Function,Priority,Active"
            +:+ String LF (csv_text
                  (flat_map (fun c =>
                     map (fun t => [Name c; Duration t; Operator t; Threshold t;
                                    TimeFunction t; Priority t;
                                    if Enabled c then "true" else "false"])
                         (Terms c)) conditions))).
Proof. intros H. apply save_content in H. rewrite H. f_equal. Qed.

Lemma csv_header_and_rows_witness :
  files (SaveNRQLConditionsAsCSV "42.csv" sample_conditions sample_fs).1 !! "42.csv" =
    Some ("Condition Name,Duration,Operator,Threshold,Time Function,Priority,Active"
            +:+ String LF
                  (q "cpu, high" +:+ ",5,above,8,all,critical,true" +:+ String LF
                     (q "cpu, high" +:+ ",10,above,7,any,warning,true" +:+ String LF ""))).
Proof.
  apply (csv_header_and_rows "42.csv" sample_conditions sample_fs). vm_compute. reflexivity.
Defined.

(** C9: whatever bytes [old] the output path holds before the run, after a
    successful run it holds the header and the new rows and nothing else,
    and the file system is the very one that the run leaves when the path
    did not exist before: the file is emptied when it is created, and no
    row of an earlier, longer run stays behind. *)
Theorem rerun_overwrites (filename old : string) (conditions : list NRQLCondition)
    (fs fs' : FileSystem) :
  SaveNRQLConditionsAsCSV filename conditions
    (with_files fs (<[filename := old]> (files fs))) = (fs', None) ->
  files fs' !! filename = Some (header_line +:+ csv_text (rows_of conditions))
  /\ SaveNRQLConditionsAsCSV filename conditions
       (with_files fs (delete filename (files fs))) = (fs', None).
Proof.
  intros H. split; [by eapply save_content|].
  revert H. unfold SaveNRQLConditionsAsCSV, os_Create.
  cbn [denied with_files files room].
  destruct (bool_decide _); [discriminate|].
  unfold with_files. cbn [denied files room].
  by rewrite insert_insert_eq, insert_delete_eq.
Qed.

Lemma rerun_overwrites_witness :
  files (SaveNRQLConditionsAsCSV "42.csv" sample_conditions sample_fs).1 !! "42.csv"
    = Some (header_line +:+ csv_text (rows_of sample_conditions))
  /\ SaveNRQLConditionsAsCSV "42.csv" sample_conditions
       (with_files sample_fs (delete "42.csv" (files sample_fs)))
     = ((SaveNRQLConditionsAsCSV "42.csv" sample_conditions sample_fs).1, None).
Proof.
  apply (rerun_overwrites "42.csv"
           (header_line +:+ csv_text (rows_of (sample_conditions ++ sample_conditions)))
           sample_conditions sample_fs).
  vm_compute. reflexivity.
Defined.

(** ** Conditions without terms *)

Lemma save_conditions_app before after : forall w fs,
  save_conditions w (before ++ after) fs =
    match save_conditions w before fs with
    | (w', fs', None) => save_conditions w' after fs'
    | (w', fs', Some e) => (w', fs', Some e)
    end.
Proof.
  induction before as [|c cs IH]; intros w fs; [reflexivity|].
  cbn [app save_conditions].
  destruct (save_terms w c (Terms c) fs) as [[w1 fs1] [e|]]; [reflexivity|]. apply IH.
Qed.

Lemma rows_of_app before after : rows_of (before ++ after) = rows_of before ++ rows_of after.
Proof. unfold rows_of. by rewrite flat_map_app. Qed.

(** C8: a condition whose terms are present and empty is no error: the
    fetch goes on and hands it out with zero terms, and writing it adds no
    row, the file is the one written without it. *)
Theorem empty_terms_condition (m : gmap string Value) (name : string) (enabled : bool)
    (before after : list Value) (found_before found_after : list NRQLCondition) :
  m !! "name" = Some (VString name) ->
  m !! "enabled" = Some (VBool enabled) ->
  m !! "terms" = Some (VSlice []) ->
  conditions_loop [] before = (found_before, None) ->
  conditions_loop [] after = (found_after, None) ->
  conditions_loop [] (before ++ VMap m :: after)
    = (found_before ++ {| Name := name; Terms := []; Enabled := enabled |} :: found_after, None)
  /\ rows_of [{| Name := name; Terms := []; Enabled := enabled |}] = []
  /\ forall filename fs,
       SaveNRQLConditionsAsCSV filename
         (found_before ++ {| Name := name; Terms := []; Enabled := enabled |} :: found_after) fs
       = SaveNRQLConditionsAsCSV filename (found_before ++ found_after) fs.
Proof.
  intros Hn He Ht Hb Ha. split; [|split; [reflexivity|]].
  - rewrite conditions_loop_app, Hb, conditions_loop_cons.
    unfold condition_violations, want_string, want_bool, index. rewrite Hn, He, Ht.
    cbn. rewrite conditions_loop_acc, Ha. by rewrite <- List.app_assoc.
  - intros filename fs. unfold SaveNRQLConditionsAsCSV.
    destruct (os_Create fs filename) as [fs0 [e|]]; [reflexivity|].
    destruct (csv.Write _ header fs0) as [[w1 fs1] [e|]]; [reflexivity|].
    rewrite !save_conditions_app.
    destruct (save_conditions w1 found_before fs1) as [[w2 fs2] [e|]]; reflexivity.
Qed.

Lemma empty_terms_condition_witness :
  conditions_loop []
    ([] ++ VMap {[ "name" := VString "idle"; "enabled" := VBool false;
                   "terms" := VSlice [] ]} :: [])
    = ([] ++ {| Name := "idle"; Terms := []; Enabled := false |} :: [], None)
  /\ rows_of [{| Name := "idle"; Terms := []; Enabled := false |}] = []
  /\ forall filename fs,
       SaveNRQLConditionsAsCSV filename
         ([] ++ {| Name := "idle"; Terms := []; Enabled := false |} :: []) fs
       = SaveNRQLConditionsAsCSV filename ([] ++ []) fs.
Proof.
  apply (empty_terms_condition
           {[ "name" := VString "idle"; "enabled" := VBool false; "terms" := VSlice [] ]}
           "idle" false [] [] [] []); reflexivity.
Defined.

(** ** The run *)

(** C3: when the decoded response has no [nrql_conditions] key, or has
    something other than a list under it, the fetch step returns the
    ResponseShapeError that names the key; [main] prints it and returns, and
    the file system is the one it started with: no CSV file is created. *)
Theorem missing_conditions_key (w : World) (config : Config) (body : string)
    (data : gmap string Value) :
  loadConfig (fs w) "config.json" = (Some config, None) ->
  NewRequest (net w) (endpoint +:+ AlertPolicyID config) = None ->
  Do (net w) (endpoint +:+ AlertPolicyID config) (APIKey config) = inl body ->
  Decode_map body = (data, None) ->
  (forall conditions, data !! "nrql_conditions" <> Some (VSlice conditions)) ->
  fetchNRQLConditions (net w) (APIKey config) (AlertPolicyID config)
    = ([], Some (Errorf "nrql_conditions field not found or has incorrect type"))
  /\ ResponseShapeError (Errorf "nrql_conditions field not found or has incorrect type")
  /\ fs (main w) = fs w
  /\ console (main w) = console w ++
       [Printf "Error fetching NRQL alert conditions: %v\n"
          [E_ (Errorf "nrql_conditions field not found or has incorrect type")]].
Proof.
  intros Hload Hreq Hdo Hdec Hkey.
  assert (fetchNRQLConditions (net w) (APIKey config) (AlertPolicyID config)
          = ([], Some (Errorf "nrql_conditions field not found or has incorrect type")))
    as Hfetch.
  { unfold fetchNRQLConditions. rewrite Hreq, Hdo, Hdec, extract_violations.
    destruct (data !! "nrql_conditions") as [[| | | |l|]|] eqn:E; try reflexivity.
    by destruct (Hkey l). }
  split; [exact Hfetch|]. split; [by eexists|].
  unfold main. rewrite Hload, Hfetch. by split.
Qed.

Lemma missing_conditions_key_witness :
  fetchNRQLConditions (net (sample_world "{}")) "k" "42"
    = ([], Some (Errorf "nrql_conditions field not found or has incorrect type"))
  /\ ResponseShapeError (Errorf "nrql_conditions field not found or has incorrect type")
  /\ fs (main (sample_world "{}")) = fs (sample_world "{}")
  /\ console (main (sample_world "{}")) = console (sample_world "{}") ++
       [Printf "Error fetching NRQL alert conditions: %v\n"
          [E_ (Errorf "nrql_conditions field not found or has incorrect type")]].
Proof.
  apply (missing_conditions_key (sample_world "{}")
           {| APIKey := "k"; AlertPolicyID := "42" |} "{}" ∅).
  - vm_compute. reflexivity.
  - reflexivity.
  - reflexivity.
  - vm_compute. reflexivity.
  - intros conditions. by rewrite lookup_empty.
Defined.

(** ** The configuration *)

Section Scanner.

Local Ltac tokens :=
  repeat (apply Forall_cons_2 || apply Forall_nil_2); cbn; auto.

Lemma start_ok c :
  Forall token_ok (json.start c).1 /\ from_option mode_ok True (json.start c).2.
Proof.
  unfold json.start.
  repeat match goal with
         | |- context [if ?b then _ else _] => destruct b
         end; cbn; split; tokens.
Qed.

Lemma lex_ok s : forall m, mode_ok m -> Forall token_ok (json.lex m s).
Proof.
  induction s as [|c s IH]; intros m Hm.
  - destruct m as [|acc esc|acc st|due tok]; cbn [json.lex];
      try destruct (json.accepting st); tokens.
  - destruct m as [|acc esc|acc st|due tok]; cbn [json.lex].
    + destruct (start_ok c) as [H1 H2]. destruct (json.start c) as [ts [m'|]]; cbn in *.
      * apply Forall_app_2; auto.
      * by rewrite app_nil_r.
    + repeat match goal with
             | |- context [if ?b then _ else _] => destruct b
             | |- context [match json.hexval c with _ => _ end] => destruct (json.hexval c)
             end; tokens; apply IH; exact I.
    + destruct (json.nstep st c); [apply IH; exact I|].
      destruct (json.accepting st); [|tokens].
      destruct (start_ok c) as [H1 H2]. destruct (json.start c) as [ts [m'|]]; cbn in *.
      * apply Forall_cons_2; [exact I|]. apply Forall_app_2; auto.
      * rewrite app_nil_r. by apply Forall_cons_2.
    + destruct due as [|d due']; [tokens|].
      destruct (eqc c d); [|tokens].
      destruct due'; [apply Forall_cons_2; [exact Hm|]; apply IH; exact I|].
      apply IH. exact Hm.
Qed.

Lemma parse_error ts : forall st stack e,
  Forall token_ok ts -> json.parse st stack ts = inr e ->
  e = SyntaxError \/ e = UnexpectedEOF.
Proof.
  induction ts as [|t ts IH]; intros st stack e Hts.
  - intros [= <-]. by right.
  - apply Forall_cons_1 in Hts as [Ht Hts]. cbn [json.parse].
    intros H.
    repeat match type of H with
           | context [match ?x with _ => _ end] =>
               first [ is_var x; destruct x | destruct x eqn:? ]
           end;
      try discriminate;
      try (injection H as <-; (by left) || (by right) || exact Ht);
      try (eapply IH; eassumption).
Qed.

Lemma readValue_error data e :
  json.readValue data = inr e -> ParseError e.
Proof.
  unfold json.readValue. pose proof (lex_ok data json.Idle I) as Hl.
  destruct (json.lex json.Idle data) as [|t ts] eqn:E.
  - intros [= <-]. right. right. by left.
  - intros H. apply parse_error in H; [|exact Hl].
    destruct H as [-> | ->]; [by left|right; by left].
Qed.

(** Where the input ends inside a token the error is the unexpected end,
    unless no such token may start there. *)
Example readValue_cut_off :
  json.readValue "[tru" = inr UnexpectedEOF
  /\ json.readValue ("{" +:+ String dquote "a") = inr UnexpectedEOF
  /\ json.readValue "{" = inr UnexpectedEOF
  /\ json.readValue "{-" = inr SyntaxError
  /\ json.readValue "[1 tru" = inr SyntaxError.
Proof. repeat split; vm_compute; reflexivity. Qed.

End Scanner.

Lemma names_exclusive k : names k "apiKey" = true -> names k "alertPolicyID" = false.
Proof.
  unfold names. intros H%bool_decide_eq_true. apply bool_decide_eq_false.
  rewrite H. vm_compute. discriminate.
Qed.

Lemma bound_cons field k v members :
  bound field ((k, v) :: members) =
    if names k field then v :: bound field members else bound field members.
Proof. unfold bound. cbn [List.filter fst]. by destruct (names k field). Qed.

Lemma type_errors_cons k v members :
  type_errors ((k, v) :: members) =
    if names k "apiKey" || names k "alertPolicyID"
    then match mistyped v with
         | Some e => e :: type_errors members
         | None => type_errors members
         end
    else type_errors members.
Proof.
  unfold type_errors. cbn [List.filter fst].
  destruct (names k "apiKey" || names k "alertPolicyID"); [|reflexivity].
  cbn [map snd omap list_omap]. by destruct (mistyped v).
Qed.

Lemma string_values_cons v vs :
  string_values (v :: vs) =
    match v with json.Str s => s :: string_values vs | _ => string_values vs end.
Proof. by destruct v. Qed.

(** The fold over the members gives each field its last string and keeps
    the first type error. *)
Lemma object_Config_spec members : forall config,
  object_Config config members =
    ({| APIKey := default (APIKey config) (last (string_values (bound "apiKey" members)));
        AlertPolicyID :=
          default (AlertPolicyID config)
                  (last (string_values (bound "alertPolicyID" members))) |},
     head (type_errors members)).
Proof.
  induction members as [|[k v] ms IH]; intros [a p]; [reflexivity|].
  cbn [object_Config]. rewrite type_errors_cons, !bound_cons.
  destruct (names k "apiKey") eqn:Ea.
  - rewrite (names_exclusive _ Ea). cbn [orb].
    destruct v; cbn [store_string APIKey AlertPolicyID mistyped];
      rewrite IH, string_values_cons; cbn [APIKey AlertPolicyID first_error head];
      rewrite ?last_cons; try reflexivity;
      by destruct (last (string_values (bound "apiKey" ms))), (type_errors ms).
  - cbn [orb]. destruct (names k "alertPolicyID") eqn:Ep.
    + destruct v; cbn [store_string APIKey AlertPolicyID mistyped];
        rewrite IH, string_values_cons; cbn [APIKey AlertPolicyID first_error head];
        rewrite ?last_cons; try reflexivity;
        by destruct (last (string_values (bound "alertPolicyID" ms))), (type_errors ms).
    + rewrite IH. reflexivity.
Qed.

Lemma type_errors_are_type_errors members :
  Forall (fun e => exists v, e = UnmarshalTypeError v) (type_errors members).
Proof.
  unfold type_errors. generalize (map snd (List.filter
    (fun kv : string * json.value => names kv.1 "apiKey" || names kv.1 "alertPolicyID") members)).
  intros vs. induction vs as [|v vs IH]; [constructor|].
  cbn [omap list_omap]. fold (omap mistyped vs).
  destruct v; cbn [mistyped]; try exact IH; (constructor; [by eexists|exact IH]).
Qed.

(** [loadConfig] on a file that opens: what the text stands for. *)
Lemma loadConfig_config_of fs filename data :
  os_Open fs filename = (Some (Regular data), None) ->
  match config_of data with
  | inl config => loadConfig fs filename = (Some config, None)
  | inr e => loadConfig fs filename = (None, Some e) /\ ParseError e
  end.
Proof.
  intros Hopen. unfold loadConfig, config_of, Decoder_Decode, Decode_Config. rewrite Hopen.
  destruct (json.readValue data) as [v|e] eqn:Ev.
  - destruct v as [| | | | |ms]; try reflexivity;
      try (split; [reflexivity|]; do 3 right; by eexists).
    rewrite object_Config_spec. cbn [APIKey AlertPolicyID].
    pose proof (type_errors_are_type_errors ms) as Ht.
    destruct (type_errors ms) as [|e es]; [reflexivity|].
    apply Forall_cons_1 in Ht as [[v ->] _]. cbn [head].
    split; [reflexivity|]. do 3 right. by eexists.
  - split; [reflexivity|]. by eapply readValue_error.
Qed.

(** C4, amended: [loadConfig] fails with a ReadError whenever the file
    cannot be opened.  When it opens but no byte of it can be read, as for a
    directory, the load fails with the error of that read, a path error of
    the operation read.  When its text is read, only the first JSON value of
    the text counts: the load fails with a ParseError when there is none,
    when it is neither an object nor [null], or when it gives [apiKey] or
    [alertPolicyID] (keys compared without regard to case) a value that is
    neither a string nor [null]; otherwise it succeeds, a field whose key is
    absent or [null] is the empty string, and a key that comes twice keeps
    its last string. *)
Theorem loadConfig_outcomes (fs : FileSystem) (filename : string) :
  ((filename ∈ denied fs /\ filename ∉ dirs fs)
   \/ ((filename ∉ denied fs) /\ files fs !! filename = None) ->
   exists e, loadConfig fs filename = (None, Some e) /\ ReadError e)
  /\ ((filename ∈ denied fs) -> (filename ∈ dirs fs) ->
      os_Open fs filename = (Some (Directory filename), None)
      /\ loadConfig fs filename = (None, Some (PathError "read" filename "is a directory")))
  /\ (forall data, filename ∉ denied fs -> files fs !! filename = Some data ->
      os_Open fs filename = (Some (Regular data), None)
      /\ match config_of data with
         | inl config => loadConfig fs filename = (Some config, None)
         | inr e => loadConfig fs filename = (None, Some e) /\ ParseError e
         end).
Proof.
  split; [|split].
  - intros H. unfold loadConfig, os_Open. case_bool_decide as Hd.
    + destruct H as [[_ H]|[H _]]; [|done].
      rewrite bool_decide_eq_false_2 by done.
      eexists. split; [reflexivity|]. by eexists _, _.
    + destruct H as [[H _]|[_ H]]; [done|]. rewrite H.
      eexists. split; [reflexivity|]. by eexists _, _.
  - intros Hd Hdir. unfold loadConfig, os_Open.
    by rewrite !bool_decide_eq_true_2 by done.
  - intros data Hd Hf.
    assert (os_Open fs filename = (Some (Regular data), None)) as Hopen.
    { unfold os_Open. rewrite bool_decide_eq_false_2 by done. by rewrite Hf. }
    split; [exact Hopen|]. by apply loadConfig_config_of.
Qed.

Lemma loadConfig_outcomes_witness :
  (exists e, loadConfig (fs (sample_world "")) "settings.json" = (None, Some e) /\ ReadError e)
  /\ loadConfig folder_fs "config.json"
       = (None, Some (PathError "read" "config.json" "is a directory"))
  /\ loadConfig (fs (sample_world "")) "config.json"
       = (Some {| APIKey := "k"; AlertPolicyID := "42" |}, None).
Proof.
  split; [|split].
  - apply (proj1 (loadConfig_outcomes (fs (sample_world "")) "settings.json")).
    right. split; [apply not_elem_of_empty|reflexivity].
  - apply (proj1 (proj2 (loadConfig_outcomes folder_fs "config.json")));
      vm_compute; reflexivity.
  - apply (proj2 (proj2 (loadConfig_outcomes (fs (sample_world "")) "config.json"))
             sample_config).
    + apply not_elem_of_empty.
    + reflexivity.
Defined.

(** C4, as stated, fails: the text of two braces matches the shape in
    neither field, and loading it succeeds, with both fields empty; a text
    with one of the two fields loads as well, the other field empty. *)
Lemma empty_object_loads :
  json.readValue "{}" = inl (json.Object [])
  /\ has_shape (json.Object []) = false
  /\ loadConfig {| files := {[ "config.json" := "{}" ]}; denied := ∅; dirs := ∅; room := None |}
       "config.json"
     = (Some {| APIKey := ""; AlertPolicyID := "" |}, None)
  /\ has_shape (json.Object [("apiKey", json.Str "k")]) = false
  /\ loadConfig {| files := {[ "config.json" := "{" +:+ q "apiKey" +:+ ":" +:+ q "k" +:+ "}" ]};
                   denied := ∅; dirs := ∅; room := None |}
       "config.json"
     = (Some {| APIKey := "k"; AlertPolicyID := "" |}, None).
Proof. repeat split; vm_compute; reflexivity. Qed.

(** ** The fetch step, element by element *)

Lemma term_violations_nil m :
  term_violations (VMap m) = [] ->
  exists term, term_from (VMap m) term
    /\ term = {| Duration := (as_string (index m "duration")).1;
                 Operator := (as_string (index m "operator")).1;
                 Threshold := (formatThreshold (as_string (index m "threshold")).1).1;
                 TimeFunction := (as_string (index m "time_function")).1;
                 Priority := (as_string (index m "priority")).1 |}.
Proof.
  cbn [term_violations]. intros Ev.
  apply app_eq_nil in Ev as [Hd Ev]. apply app_eq_nil in Ev as [Ho Ev].
  apply app_eq_nil in Ev as [Ht Ev]. apply app_eq_nil in Ev as [Hn Ev].
  apply app_eq_nil in Ev as [Htf Hp].
  revert Hd Ho Ht Hn Htf Hp. unfold want_string, want_number, index.
  destruct (m !! "duration") as [[| | |d| |]|] eqn:Ed; try discriminate.
  destruct (m !! "operator") as [[| | |o| |]|] eqn:Eo; try discriminate.
  destruct (m !! "threshold") as [[| | |raw| |]|] eqn:Et; try discriminate.
  destruct (m !! "time_function") as [[| | |tf| |]|] eqn:Etf; try discriminate.
  destruct (m !! "priority") as [[| | |pr| |]|] eqn:Ep; try discriminate.
  intros _ _ _ Hn _ _. cbn [from_option as_string fst id].
  pose proof (formatThreshold_inv raw) as Hf.
  destruct (strconv.ParseFloat raw) as [f [e|]]; [discriminate|].
  eexists. split; [|reflexivity].
  exists m, raw. cbn [Duration Operator Threshold TimeFunction Priority].
  rewrite Hf. by repeat split.
Qed.

Lemma terms_loop_step t term terms termsData' :
  term_from t term ->
  terms_loop terms (t :: termsData') = terms_loop (terms ++ [term]) termsData'.
Proof.
  intros (m & raw & -> & Hd & Ho & Ht & Hf & Htf & Hp).
  cbn [terms_loop as_map negb]. unfold index. rewrite Hd, Ho, Ht, Htf, Hp.
  cbn [from_option as_string negb id]. rewrite Hf. by destruct term.
Qed.

Lemma terms_loop_found termsData : forall terms found,
  terms_loop terms termsData = inl found <->
  exists more, found = terms ++ more /\ Forall2 term_from termsData more.
Proof.
  induction termsData as [|t l IH]; intros acc found.
  - cbn [terms_loop]. split.
    + intros [= <-]. exists []. by rewrite app_nil_r.
    + intros (more & -> & ->%Forall2_nil_inv_l). by rewrite app_nil_r.
  - split.
    + intros H. assert (exists term, term_from t term) as [term Ht].
      { rewrite terms_loop_cons in H.
        destruct (term_violations t) eqn:Ev; [|discriminate].
        destruct t; try discriminate.
        destruct (term_violations_nil _ Ev) as (term & Ht & _). by exists term. }
      rewrite (terms_loop_step _ _ _ _ Ht) in H.
      apply IH in H as (more & -> & Hmore). exists (term :: more).
      split; [by rewrite <- List.app_assoc|by constructor].
    + intros (more & -> & Hall). apply Forall2_cons_inv_l in Hall as (term & more' & Ht & Hl & ->).
      rewrite (terms_loop_step _ _ _ _ Ht). apply IH. exists more'.
      split; [by rewrite <- List.app_assoc|done].
Qed.

Lemma conditions_loop_step c condition nrqlConditions conditions' :
  condition_from c condition ->
  conditions_loop nrqlConditions (c :: conditions')
    = conditions_loop (nrqlConditions ++ [condition]) conditions'.
Proof.
  intros (m & terms & -> & Hn & He & Ht & Hterms).
  cbn [conditions_loop as_map negb]. unfold index. rewrite Hn, He, Ht.
  cbn [from_option as_string as_bool as_slice negb id].
  assert (terms_loop [] terms = inl (Terms condition)) as ->.
  { apply terms_loop_found. by exists (Terms condition). }
  by destruct condition.
Qed.

Lemma conditions_loop_found conditions : forall nrqlConditions found,
  conditions_loop nrqlConditions conditions = (found, None) <->
  exists more, found = nrqlConditions ++ more /\ Forall2 condition_from conditions more.
Proof.
  induction conditions as [|c l IH]; intros acc found.
  - cbn [conditions_loop]. split.
    + intros [= <-]. exists []. by rewrite app_nil_r.
    + intros (more & -> & ->%Forall2_nil_inv_l). by rewrite app_nil_r.
  - split.
    + intros H. assert (exists condition, condition_from c condition) as [condition Hc].
      { rewrite conditions_loop_cons in H.
        destruct (condition_violations c) eqn:Ev; [|discriminate].
        destruct c as [| | | | |m]; try discriminate.
        destruct (terms_loop _ _) as [terms|] eqn:Et; [|discriminate].
        revert Ev Et. cbn [condition_violations]. unfold want_string, want_bool, index.
        destruct (m !! "name") as [[| | |n| |]|] eqn:En; try discriminate.
        destruct (m !! "enabled") as [[|b| | | |]|] eqn:Eb; try discriminate.
        destruct (m !! "terms") as [[| | | |ts|]|] eqn:Ets; try discriminate.
        cbn [from_option as_slice fst id]. intros _ Et.
        apply terms_loop_found in Et as (more & -> & Hmore).
        exists {| Name := n; Terms := more; Enabled := b |}, m, ts. by repeat split. }
      rewrite (conditions_loop_step _ _ _ _ Hc) in H.
      apply IH in H as (more & -> & Hmore). exists (condition :: more).
      split; [by rewrite <- List.app_assoc|by constructor].
    + intros (more & -> & Hall).
      apply Forall2_cons_inv_l in Hall as (condition & more' & Hc & Hl & ->).
      rewrite (conditions_loop_step _ _ _ _ Hc). apply IH. exists more'.
      split; [by rewrite <- List.app_assoc|done].
Qed.

(** ** Thresholds of fetched terms *)

Lemma formatThreshold_threshold_of raw threshold :
  formatThreshold raw = (threshold, None) -> threshold_of raw threshold.
Proof.
  intros H. pose proof (formatThreshold_inv raw) as Hf.
  destruct (strconv.ParseFloat raw) as [f [e|]] eqn:E.
  - rewrite Hf in H. discriminate.
  - rewrite Hf in H. injection H as <-.
    exists f. split; [exact E|]. split; [reflexivity|]. apply Sprintf_f0_shape.
Qed.

Lemma term_from_threshold t term : term_from t term -> threshold_from t term.
Proof.
  intros (m & raw & -> & _ & _ & Hraw & Hf & _).
  exists m, raw. split; [reflexivity|]. split; [exact Hraw|].
  by apply formatThreshold_threshold_of.
Qed.

Lemma condition_from_thresholds c condition :
  condition_from c condition -> thresholds_from c condition.
Proof.
  intros (m & termsData & -> & _ & _ & Hterms & Hall).
  exists m, termsData. split; [reflexivity|]. split; [exact Hterms|].
  eapply Forall2_impl; [exact Hall|]. apply term_from_threshold.
Qed.

(** C7, amended: after a successful fetch the conditions stand one for one
    for the elements of the response, their terms one for one for the
    elements under terms, and every term has as threshold the zero-digit
    print of the float64 that the string under its own threshold key parses
    to.  When that float is finite this is a decimal integer, an optional
    minus sign and digits; when it is not (the strings NaN, Inf and Infinity
    parse too) it is one of NaN, +Inf and -Inf. *)
Theorem fetched_thresholds (data : gmap string Value) (found : list NRQLCondition) :
  extract data = (found, None) ->
  exists conditions,
    data !! "nrql_conditions" = Some (VSlice conditions)
    /\ Forall2 thresholds_from conditions found.
Proof.
  rewrite extract_violations.
  destruct (data !! "nrql_conditions") as [[| | | |l|]|]; try discriminate.
  intros H. apply conditions_loop_found in H as (more & -> & Hall).
  exists l. split; [reflexivity|]. cbn [app].
  eapply Forall2_impl; [exact Hall|]. apply condition_from_thresholds.
Qed.

Lemma fetched_thresholds_witness :
  exists conditions,
    response_7_5 !! "nrql_conditions" = Some (VSlice conditions)
    /\ Forall2 thresholds_from conditions
         [{| Name := "cpu";
             Terms := [{| Duration := "5"; Operator := "above"; Threshold := "8";
                          TimeFunction := "all"; Priority := "critical" |}];
             Enabled := true |}].
Proof.
  apply (fetched_thresholds response_7_5). vm_compute. reflexivity.
Defined.

(** C7, as stated, fails: the string NaN parses as a float, the fetch
    succeeds, and the term's threshold is NaN, which is no decimal integer. *)
Lemma threshold_NaN_is_kept :
  strconv.ParseFloat "NaN" = (SpecFloat.S754_nan, None)
  /\ extract response_NaN =
       ([{| Name := "cpu";
            Terms := [{| Duration := "5"; Operator := "above"; Threshold := "NaN";
                         TimeFunction := "all"; Priority := "critical" |}];
            Enabled := true |}], None)
  /\ decimal_integer "NaN" = false.
Proof. repeat split; vm_compute; reflexivity. Qed.

(** * Further properties *)

(** X1: the fetch step succeeds with [found] exactly when [found] has, in
    the order of the response, one condition for each element of the list,
    with the element's name and flag and, in the order of its terms, one
    term for each, whose fields are the strings found under the five keys,
    the threshold formatted. *)
Theorem extract_in_order (data : gmap string Value) (conditions : list Value)
    (found : list NRQLCondition) :
  data !! "nrql_conditions" = Some (VSlice conditions) ->
  extract data = (found, None) <-> Forall2 condition_from conditions found.
Proof.
  intros Hdata. rewrite extract_violations, Hdata, conditions_loop_found.
  split; [by intros (more & -> & H)|]. intros H. by exists found.
Qed.

Lemma extract_in_order_witness :
  extract response_7_5 =
    ([{| Name := "cpu";
         Terms := [{| Duration := "5"; Operator := "above"; Threshold := "8";
                      TimeFunction := "all"; Priority := "critical" |}];
         Enabled := true |}], None)
  <-> Forall2 condition_from
        [VMap {[ "name" := VString "cpu"; "enabled" := VBool true;
                 "terms" := VSlice [VMap (sample_term "7.5")] ]}]
        [{| Name := "cpu";
            Terms := [{| Duration := "5"; Operator := "above"; Threshold := "8";
                         TimeFunction := "all"; Priority := "critical" |}];
            Enabled := true |}].
Proof. apply (extract_in_order response_7_5). reflexivity. Defined.

Lemma index_insert_ne (m : gmap string Value) k v field :
  k <> field -> index (<[k := v]> m) field = index m field.
Proof. intros H. unfold index. by rewrite lookup_insert_ne. Qed.

Lemma terms_loop_app before after : forall terms,
  terms_loop terms (before ++ after) =
    match terms_loop terms before with
    | inl found => terms_loop found after
    | inr e => inr e
    end.
Proof.
  induction before as [|t l IH]; intros acc; [reflexivity|].
  rewrite <- app_comm_cons, !terms_loop_cons.
  destruct (term_violations t); [|reflexivity].
  destruct t; try reflexivity. apply IH.
Qed.

(** X2: a key that the fetch step does not look for changes nothing,
    whatever it holds: at the top of the response, in a condition at any
    place of the list, in a term at any place of its list. *)
Theorem unknown_keys_ignored (k : string) (v : Value) :
  k ∉ checked_fields ->
  (forall data, extract (<[k := v]> data) = extract data)
  /\ (forall m before after found,
        conditions_loop found (before ++ VMap (<[k := v]> m) :: after)
        = conditions_loop found (before ++ VMap m :: after))
  /\ (forall m before after found,
        terms_loop found (before ++ VMap (<[k := v]> m) :: after)
        = terms_loop found (before ++ VMap m :: after)).
Proof.
  unfold checked_fields. intros Hk.
  repeat (apply not_elem_of_cons in Hk as [? Hk]).
  split; [|split].
  - intros data. unfold extract. by rewrite index_insert_ne.
  - intros m before after found. rewrite !conditions_loop_app.
    destruct (conditions_loop found before) as [f [e|]]; [reflexivity|].
    cbn [conditions_loop as_map negb]. by rewrite !index_insert_ne.
  - intros m before after found. rewrite !terms_loop_app.
    destruct (terms_loop found before) as [f|e]; [|reflexivity].
    cbn [terms_loop as_map negb]. by rewrite !index_insert_ne.
Qed.

Lemma unknown_keys_ignored_witness :
  (forall data, extract (<["id" := VFloat64 (SpecFloat.S754_zero false)]> data) = extract data)
  /\ (forall m before after found,
        conditions_loop found
          (before ++ VMap (<["id" := VFloat64 (SpecFloat.S754_zero false)]> m) :: after)
        = conditions_loop found (before ++ VMap m :: after))
  /\ (forall m before after found,
        terms_loop found
          (before ++ VMap (<["id" := VFloat64 (SpecFloat.S754_zero false)]> m) :: after)
        = terms_loop found (before ++ VMap m :: after)).
Proof.
  apply (unknown_keys_ignored "id" (VFloat64 (SpecFloat.S754_zero false))).
  unfold checked_fields. repeat (apply not_elem_of_cons; split; [done|]).
  apply not_elem_of_nil.
Defined.

Lemma conditions_loop_error nrqlConditions conditions found e :
  conditions_loop nrqlConditions conditions = (found, Some e) -> found = [].
Proof.
  pose proof (conditions_loop_violations conditions nrqlConditions) as H.
  destruct (violations conditions).
  - destruct H as (more & -> & _). discriminate.
  - rewrite H. by intros [= <- _].
Qed.

(** X3: the loop over the conditions goes through a list in two parts as
    through the parts one after the other: when both parts are accepted the
    result is the conditions of the first followed by those of the second,
    and otherwise it is nil and the error of the first part that has one. *)
Theorem conditions_loop_concat (before after : list Value) :
  conditions_loop [] (before ++ after) =
    match conditions_loop [] before, conditions_loop [] after with
    | (found1, None), (found2, None) => (found1 ++ found2, None)
    | (_, Some e), _ => ([], Some e)
    | (_, None), (_, Some e) => ([], Some e)
    end.
Proof.
  rewrite conditions_loop_app.
  destruct (conditions_loop [] before) as [f1 [e|]] eqn:E1.
  - by rewrite (conditions_loop_error _ _ _ _ E1).
  - rewrite conditions_loop_acc.
    destruct (conditions_loop [] after) as [f2 [e|]] eqn:E2; [|reflexivity].
    by rewrite (conditions_loop_error _ _ _ _ E2).
Qed.

(** ** [formatThreshold] *)








(** ** [SaveNRQLConditionsAsCSV], also when it fails *)

Lemma str_len_app a b : str_len (a +:+ b) = str_len a + str_len b.
Proof. induction a as [|c a IH]; [reflexivity|]. rewrite sapp_cons. cbn [str_len]. lia. Qed.

Lemma str_len_nonneg a : 0 <= str_len a.
Proof. induction a as [|c a IH]; cbn [str_len]; lia. Qed.

Lemma take_app_long a : forall n b,
  Z.of_nat n < str_len a -> take n (a +:+ b) = take n a.
Proof.
  induction a as [|c a IH]; intros n b; cbn [str_len]; [lia|].
  destruct n as [|n]; [reflexivity|]. intros H.
  rewrite sapp_cons. cbn [take]. f_equal. apply IH. lia.
Qed.

Lemma take_to_nat_app_long a b r :
  r < str_len a -> take (Z.to_nat r) (a +:+ b) = take (Z.to_nat r) a.
Proof.
  intros H. destruct (Z.le_gt_cases 0 r).
  - apply take_app_long. lia.
  - replace (Z.to_nat r) with 0%nat by lia. by destruct a, b.
Qed.

Lemma take_prefix s : forall n, prefix (take n s) s = true.
Proof.
  induction s as [|c s IH]; intros [|n]; try reflexivity.
  cbn [take prefix]. unfold eqc. by rewrite Ascii.eqb_refl, IH.
Qed.

Lemma str_len_take s : forall n, str_len (take n s) <= Z.of_nat n.
Proof.
  induction s as [|c s IH]; intros [|n]; cbn [take str_len]; try lia.
  specialize (IH n). lia.
Qed.

(** A write that the device refuses stays refused, with the same bytes in
    the file, when more bytes are written in the same go. *)
Lemma file_Write_stuck fs name data more fs' e :
  file_Write fs name data = (fs', Some e) ->
  file_Write fs name (data +:+ more) = (fs', Some e).
Proof.
  unfold file_Write. destruct (room fs) as [r|]; [|discriminate].
  destruct (files fs !! name) as [old|]; cbn [default from_option id].
  - destruct (str_len (old +:+ data) <=? r) eqn:E; [discriminate|].
    apply Z.leb_gt in E. intros [= <- <-].
    rewrite <- sapp_assoc.
    destruct (str_len ((old +:+ data) +:+ more) <=? r) eqn:E'.
    + apply Z.leb_le in E'. rewrite str_len_app in E'.
      pose proof (str_len_nonneg more). lia.
    + by rewrite take_to_nat_app_long.
  - rewrite !sapp_nil_l.
    destruct (str_len data <=? r) eqn:E; [discriminate|].
    apply Z.leb_gt in E. intros [= <- <-].
    destruct (str_len (data +:+ more) <=? r) eqn:E'.
    + apply Z.leb_le in E'. rewrite str_len_app in E'.
      pose proof (str_len_nonneg more). lia.
    + by rewrite take_to_nat_app_long.
Qed.

(** Two writes that the device takes are one write of both. *)
Lemma file_Write_again fs name data b fs' :
  files fs !! name = Some "" ->
  file_Write fs name data = (fs', None) ->
  file_Write fs' name b = file_Write fs name (data +:+ b).
Proof.
  intros Hempty. unfold file_Write. rewrite Hempty.
  cbn [default from_option id]. rewrite !sapp_nil_l.
  destruct (room fs) as [r|] eqn:Er.
  - destruct (str_len data <=? r); [|discriminate]. intros [= <-].
    cbn [with_files files room]. rewrite Er, lookup_insert_eq.
    cbn [default from_option id]. unfold with_files. cbn [files denied room].
    by rewrite !insert_insert_eq.
  - intros [= <-]. cbn [with_files files room]. rewrite Er, lookup_insert_eq.
    cbn [default from_option id]. unfold with_files. cbn [files denied room].
    by rewrite !insert_insert_eq.
Qed.

(** The loops, from a file that was empty and has taken [data] since: they
    end as one write of [data] and all their records does; on success the
    writer is as it was. *)
Lemma save_terms_stream fs0 name condition terms : forall w data fs,
  files fs0 !! name = Some "" ->
  csv.w_file w = name -> csv.w_err w = None ->
  file_Write fs0 name data = (fs, None) ->
  exists w',
    save_terms w condition terms fs
      = (w', (file_Write fs0 name (data +:+ csv_text (map (record_of condition) terms))).1,
             (file_Write fs0 name (data +:+ csv_text (map (record_of condition) terms))).2)
    /\ ((file_Write fs0 name (data +:+ csv_text (map (record_of condition) terms))).2 = None
        -> w' = w).
Proof.
  induction terms as [|t ts IH]; intros w data fs Hempty Hfile Herr Hdata.
  - exists w. cbn [map csv_text foldr save_terms]. by rewrite sapp_nil_r, Hdata.
  - cbn [save_terms map csv_text foldr]. fold (csv_text (map (record_of condition) ts)).
    unfold csv.Write. rewrite Herr, Hfile.
    rewrite (file_Write_again _ _ _ _ _ Hempty Hdata), <- sapp_assoc.
    destruct (file_Write fs0 name (data +:+ csv.record_bytes (record_of condition t)))
      as [fs1 [e|]] eqn:E.
    + rewrite (file_Write_stuck _ _ _ _ _ _ E). eexists. split; [reflexivity|]. discriminate.
    + destruct (IH {| csv.w_file := name; csv.w_err := None |} _ _ Hempty eq_refl eq_refl E)
        as (w' & -> & Hw').
      exists w'. split; [reflexivity|]. intros H. rewrite (Hw' H). by destruct w; simplify_eq/=.
Qed.

Lemma save_conditions_stream fs0 name conditions : forall w data fs,
  files fs0 !! name = Some "" ->
  csv.w_file w = name -> csv.w_err w = None ->
  file_Write fs0 name data = (fs, None) ->
  exists w',
    save_conditions w conditions fs
      = (w', (file_Write fs0 name (data +:+ csv_text (rows_of conditions))).1,
             (file_Write fs0 name (data +:+ csv_text (rows_of conditions))).2)
    /\ ((file_Write fs0 name (data +:+ csv_text (rows_of conditions))).2 = None -> w' = w).
Proof.
  induction conditions as [|c cs IH]; intros w data fs Hempty Hfile Herr Hdata.
  - exists w. cbn [rows_of flat_map csv_text foldr save_conditions].
    by rewrite sapp_nil_r, Hdata.
  - cbn [save_conditions]. unfold rows_of. cbn [flat_map]. fold (rows_of cs).
    rewrite csv_text_app, <- sapp_assoc.
    destruct (save_terms_stream fs0 name c (Terms c) w data fs Hempty Hfile Herr Hdata)
      as (w1 & -> & Hw1).
    change (map (fun t => [Name c; Duration t; Operator t; Threshold t; TimeFunction t;
                           Priority t; if Enabled c then "true" else "false"]) (Terms c))
      with (map (record_of c) (Terms c)).
    destruct (file_Write fs0 name (data +:+ csv_text (map (record_of c) (Terms c))))
      as [fs1 [e|]] eqn:E; cbn [fst snd] in *.
    + rewrite (file_Write_stuck _ _ _ _ _ _ E). eexists. split; [reflexivity|]. discriminate.
    + rewrite (Hw1 eq_refl). apply IH; assumption.
Qed.

(** The whole function as one write. *)
Lemma save_as_one_write filename conditions fs :
  SaveNRQLConditionsAsCSV filename conditions fs =
    match os_Create fs filename with
    | (fs1, Some e) => (fs1, Some e)
    | (fs1, None) => file_Write fs1 filename (header_line +:+ csv_text (rows_of conditions))
    end.
Proof.
  unfold SaveNRQLConditionsAsCSV. destruct (os_Create fs filename) as [fs1 [e|]] eqn:Ec;
    [reflexivity|].
  assert (files fs1 !! filename = Some "") as Hempty.
  { revert Ec. unfold os_Create. destruct (bool_decide _); [discriminate|].
    intros [= <-]. apply lookup_insert_eq. }
  unfold csv.Write. cbn [csv.NewWriter csv.w_err csv.w_file]. rewrite header_bytes.
  destruct (file_Write fs1 filename header_line) as [fs2 [e|]] eqn:E.
  - by rewrite (file_Write_stuck _ _ _ _ _ _ E).
  - destruct (save_conditions_stream fs1 filename conditions
                {| csv.w_file := filename; csv.w_err := None |} header_line fs2
                Hempty eq_refl eq_refl E) as (w' & -> & Hw').
    destruct (file_Write fs1 filename (header_line +:+ csv_text (rows_of conditions)))
      as [fs3 [e|]]; cbn [fst snd csv.Flush] in *; [reflexivity|].
    by rewrite (Hw' eq_refl).
Qed.

(** X6: [SaveNRQLConditionsAsCSV], which writes record by record and returns
    at the first error, does what creating the file and writing the header
    and all the rows in one go does: it returns the error of the creation, or
    else of that write, and leaves the same file system. *)
Theorem save_is_one_write (filename : string) (conditions : list NRQLCondition)
    (fs : FileSystem) :
  SaveNRQLConditionsAsCSV filename conditions fs =
    match os_Create fs filename with
    | (fs1, Some e) => (fs1, Some e)
    | (fs1, None) => file_Write fs1 filename (header_line +:+ csv_text (rows_of conditions))
    end.
Proof. exact (save_as_one_write filename conditions fs). Qed.

Lemma save_other_files filename other conditions fs :
  other <> filename ->
  files (SaveNRQLConditionsAsCSV filename conditions fs).1 !! other = files fs !! other.
Proof.
  intros Hne. rewrite save_as_one_write. unfold os_Create, file_Write.
  destruct (bool_decide _); [reflexivity|]. cbn [with_files files room].
  destruct (room fs) as [r|]; [destruct (_ <=? r)|];
    cbn [fst with_files files]; by rewrite !lookup_insert_ne.
Qed.

(** X7: whether it succeeds or fails, [SaveNRQLConditionsAsCSV] leaves every
    file other than the one it is given as it was. *)
Theorem save_touches_one_file (filename other : string) (conditions : list NRQLCondition)
    (fs : FileSystem) :
  other <> filename ->
  files (SaveNRQLConditionsAsCSV filename conditions fs).1 !! other = files fs !! other.
Proof. apply save_other_files. Qed.

Lemma save_touches_one_file_witness :
  files (SaveNRQLConditionsAsCSV "42.csv" sample_conditions
           (fs (sample_world ""))).1 !! "config.json"
  = files (fs (sample_world "")) !! "config.json".
Proof.
  apply (save_touches_one_file "42.csv" "config.json" sample_conditions (fs (sample_world ""))).
  discriminate.
Defined.

(** X8: there is no rollback.  When [SaveNRQLConditionsAsCSV] returns an
    error, either the creation was refused and the file system is as it
    was, or the file was created and what it held before is gone: it holds
    a strict prefix of the header and rows, as far as the device took them. *)
Theorem save_failure_leaves_prefix (filename : string) (conditions : list NRQLCondition)
    (fs fs' : FileSystem) (e : error) :
  SaveNRQLConditionsAsCSV filename conditions fs = (fs', Some e) ->
  (filename ∈ denied fs /\ fs' = fs)
  \/ ((filename ∉ denied fs) /\
      exists content,
        files fs' !! filename = Some content
        /\ prefix content (header_line +:+ csv_text (rows_of conditions)) = true
        /\ str_len content < str_len (header_line +:+ csv_text (rows_of conditions))).
Proof.
  rewrite save_as_one_write. unfold os_Create. case_bool_decide as Hd.
  - intros [= <- _]. by left.
  - intros Hsave. right. split; [exact Hd|]. revert Hsave. unfold file_Write.
    cbn [with_files files room]. rewrite lookup_insert_eq.
    cbn [default from_option id]. rewrite sapp_nil_l.
    destruct (room fs) as [r|]; [|discriminate].
    destruct (_ <=? r) eqn:E; [discriminate|]. apply Z.leb_gt in E.
    intros [= <- _]. eexists. cbn [with_files files]. split; [apply lookup_insert_eq|].
    split; [apply take_prefix|].
    pose proof (str_len_take (header_line +:+ csv_text (rows_of conditions)) (Z.to_nat r)).
    pose proof (str_len_nonneg (header_line +:+ csv_text (rows_of conditions))).
    destruct (Z.le_gt_cases 0 r); [lia|].
    assert (0 < str_len header_line) by (vm_compute; reflexivity).
    rewrite str_len_app in *.
    pose proof (str_len_nonneg (csv_text (rows_of conditions))). lia.
Qed.

Lemma save_failure_leaves_prefix_witness :
  ("42.csv" ∈ denied small_fs
   /\ (SaveNRQLConditionsAsCSV "42.csv" sample_conditions small_fs).1 = small_fs)
  \/ (("42.csv" ∉ denied small_fs) /\
      exists content,
        files (SaveNRQLConditionsAsCSV "42.csv" sample_conditions small_fs).1 !! "42.csv"
          = Some content
        /\ prefix content (header_line +:+ csv_text (rows_of sample_conditions)) = true
        /\ str_len content < str_len (header_line +:+ csv_text (rows_of sample_conditions))).
Proof.
  apply (save_failure_leaves_prefix "42.csv" sample_conditions small_fs _
           (PathError "write" "42.csv" "no space left on device")).
  vm_compute. reflexivity.
Defined.

(** ** [loadConfig] *)

(** X9: [loadConfig] returns a configuration and no error, or no
    configuration and an error, never nil twice: [main] may use the
    configuration once it has seen that the error is nil. *)
Theorem loadConfig_config_or_error (fs : FileSystem) (filename : string) :
  (exists config, loadConfig fs filename = (Some config, None))
  \/ (exists e, loadConfig fs filename = (None, Some e)).
Proof.
  unfold loadConfig, os_Open.
  destruct (bool_decide (filename ∈ denied fs)).
  - destruct (bool_decide (filename ∈ dirs fs)); right; by eexists.
  - destruct (files fs !! filename) as [data|]; [|right; by eexists].
    cbn [Decoder_Decode].
    destruct (Decode_Config data _) as [config [e|]]; [right|left]; by eexists.
Qed.

Lemma rev_app_rev_app s : forall acc t,
  String.rev_app (String.rev_app s acc) t = String.rev_app acc (s +:+ t).
Proof.
  induction s as [|c s IH]; intros acc t; [reflexivity|].
  cbn [String.rev_app]. rewrite IH. reflexivity.
Qed.

Lemma plain_byte_inv c :
  plain_byte c = true ->
  eqc c dquote = false /\ eqc c json.backslash = false
  /\ (byte c <? 32) = false /\ (byte c <? 128) = true.
Proof.
  unfold plain_byte, between. intros [[[H1 H2]%andb_true_iff Hq]%andb_true_iff Hb]%andb_true_iff.
  apply negb_true_iff in Hq, Hb. apply Z.leb_le in H1, H2.
  change (byte " ") with 32 in H1. change (byte "~") with 126 in H2.
  repeat split; try assumption; [apply Z.ltb_ge|apply Z.ltb_lt]; lia.
Qed.

Lemma unquote_plain_byte c t :
  plain_byte c = true -> json.unquote (String c t) = String c (json.unquote t).
Proof.
  intros (_ & Hb & _ & Hlt)%plain_byte_inv.
  destruct t as [|c1 [|c2 [|c3 t3]]]; cbn [json.unquote]; rewrite Hb;
    unfold utf8.width; rewrite Hlt; reflexivity.
Qed.

Lemma unquote_plain s : plain s = true -> json.unquote s = s.
Proof.
  induction s as [|c s IH]; [reflexivity|].
  cbn [plain]. intros [Hc Hs]%andb_true_iff.
  by rewrite unquote_plain_byte, IH.
Qed.

Lemma lex_plain s : forall acc rest,
  plain s = true ->
  json.lex (json.InString acc 0) (s +:+ String dquote rest)
    = json.TString (json.unquote (String.rev (String.rev_app s acc))) :: json.lex json.Idle rest.
Proof.
  induction s as [|c s IH]; intros acc rest.
  - intros _. rewrite sapp_nil_l. cbn [json.lex Z.eqb String.rev_app].
    unfold eqc. by rewrite Ascii.eqb_refl.
  - cbn [plain]. intros [Hc Hs]%andb_true_iff.
    apply plain_byte_inv in Hc as (Hq & Hb & Hlow & _).
    rewrite sapp_cons. cbn [json.lex Z.eqb String.rev_app].
    rewrite Hq, Hb, Hlow. by apply IH.
Qed.

Lemma lex_quoted s rest :
  plain s = true ->
  json.lex json.Idle (q s +:+ rest) = json.TString s :: json.lex json.Idle rest.
Proof.
  intros Hs. unfold q. rewrite sapp_assoc, !sapp_cons, sapp_nil_l.
  change (json.lex json.Idle (String dquote (s +:+ String dquote rest)))
    with (json.lex (json.InString "" 0) (s +:+ String dquote rest)).
  rewrite (lex_plain s "" rest Hs). unfold String.rev.
  rewrite rev_app_rev_app. cbn [String.rev_app]. by rewrite sapp_nil_r, unquote_plain.
Qed.

Lemma readValue_config_text apiKey alertPolicyID :
  plain apiKey = true -> plain alertPolicyID = true ->
  json.readValue (config_text apiKey alertPolicyID)
    = inl (json.Object [("apiKey", json.Str apiKey);
                        ("alertPolicyID", json.Str alertPolicyID)]).
Proof.
  intros Hk Hp. unfold json.readValue, config_text.
  change (json.lex json.Idle
            ("{" +:+ q "apiKey" +:+ ":" +:+ q apiKey +:+ "," +:+ q "alertPolicyID"
                 +:+ ":" +:+ q alertPolicyID +:+ "}"))
    with (json.TLBrace :: json.lex json.Idle
            (q "apiKey" +:+ ":" +:+ q apiKey +:+ "," +:+ q "alertPolicyID"
                 +:+ ":" +:+ q alertPolicyID +:+ "}")).
  rewrite (lex_quoted "apiKey") by reflexivity.
  change (json.lex json.Idle (":" +:+ q apiKey +:+ "," +:+ q "alertPolicyID"
                                +:+ ":" +:+ q alertPolicyID +:+ "}"))
    with (json.TColon :: json.lex json.Idle
            (q apiKey +:+ "," +:+ q "alertPolicyID" +:+ ":" +:+ q alertPolicyID +:+ "}")).
  rewrite (lex_quoted apiKey) by exact Hk.
  change (json.lex json.Idle ("," +:+ q "alertPolicyID" +:+ ":" +:+ q alertPolicyID +:+ "}"))
    with (json.TComma :: json.lex json.Idle
            (q "alertPolicyID" +:+ ":" +:+ q alertPolicyID +:+ "}")).
  rewrite (lex_quoted "alertPolicyID") by reflexivity.
  change (json.lex json.Idle (":" +:+ q alertPolicyID +:+ "}"))
    with (json.TColon :: json.lex json.Idle (q alertPolicyID +:+ "}")).
  rewrite (lex_quoted alertPolicyID) by exact Hp.
  reflexivity.
Qed.

(** X10: a configuration file that holds the two fields as JSON strings of
    printable ASCII, without quote or backslash, loads as exactly these two
    strings. *)
Theorem loadConfig_round_trip (fs : FileSystem) (filename apiKey alertPolicyID : string) :
  plain apiKey = true -> plain alertPolicyID = true ->
  filename ∉ denied fs ->
  files fs !! filename = Some (config_text apiKey alertPolicyID) ->
  loadConfig fs filename
    = (Some {| APIKey := apiKey; AlertPolicyID := alertPolicyID |}, None).
Proof.
  intros Hk Hp Hd Hf. unfold loadConfig, os_Open.
  rewrite bool_decide_eq_false_2 by exact Hd. rewrite Hf.
  unfold Decoder_Decode, Decode_Config.
  rewrite (readValue_config_text _ _ Hk Hp). reflexivity.
Qed.

Lemma loadConfig_round_trip_witness :
  loadConfig (fs (sample_world "")) "config.json"
    = (Some {| APIKey := "k"; AlertPolicyID := "42" |}, None).
Proof.
  apply (loadConfig_round_trip (fs (sample_world "")) "config.json" "k" "42");
    try reflexivity.
  apply not_elem_of_empty.
Defined.

(** ** [main], from the configuration to the file *)

Lemma save_succeeds filename conditions fs :
  filename ∉ denied fs ->
  match room fs with
  | Some r => str_len (header_line +:+ csv_text (rows_of conditions)) <= r
  | None => True
  end ->
  SaveNRQLConditionsAsCSV filename conditions fs
    = (with_files fs (<[filename := header_line +:+ csv_text (rows_of conditions)]> (files fs)),
       None).
Proof.
  intros Hd Hroom. rewrite save_as_one_write. unfold os_Create, file_Write.
  rewrite bool_decide_eq_false_2 by exact Hd.
  cbn [with_files files room]. rewrite lookup_insert_eq.
  cbn [default from_option id]. rewrite sapp_nil_l.
  unfold with_files. cbn [files denied room].
  destruct (room fs) as [r|]; [|by rewrite insert_insert_eq].
  apply Z.leb_le in Hroom. by rewrite Hroom, insert_insert_eq.
Qed.

Lemma fetch_decoded net apiKey policyID body data :
  NewRequest net (endpoint +:+ policyID) = None ->
  Do net (endpoint +:+ policyID) apiKey = inl body ->
  Decode_map body = (data, None) ->
  fetchNRQLConditions net apiKey policyID = extract data.
Proof. intros Hreq Hdo Hdec. unfold fetchNRQLConditions. by rewrite Hreq, Hdo, Hdec. Qed.

(** X11: when the configuration loads, the API answers, the answer decodes
    and passes the checks, and the output path may be created and has room,
    [main] leaves in the file named after the policy, with [.csv] added, the
    header and one row for each fetched term, and the last thing it prints
    is that the file was saved. *)
Theorem main_saves (w : World) (config : Config) (body : string)
    (data : gmap string Value) (found : list NRQLCondition) :
  loadConfig (fs w) "config.json" = (Some config, None) ->
  NewRequest (net w) (endpoint +:+ AlertPolicyID config) = None ->
  Do (net w) (endpoint +:+ AlertPolicyID config) (APIKey config) = inl body ->
  Decode_map body = (data, None) ->
  extract data = (found, None) ->
  AlertPolicyID config +:+ ".csv" ∉ denied (fs w) ->
  match room (fs w) with
  | Some r => str_len (header_line +:+ csv_text (rows_of found)) <= r
  | None => True
  end ->
  files (fs (main w)) !! (AlertPolicyID config +:+ ".csv")
    = Some (header_line +:+ csv_text (rows_of found))
  /\ last (console (main w)) = Some saved_line.
Proof.
  intros Hload Hreq Hdo Hdec Hx Hd Hroom. unfold main.
  rewrite Hload, (fetch_decoded _ _ _ _ _ Hreq Hdo Hdec), Hx.
  cbn [print fs]. rewrite (save_succeeds _ _ _ Hd Hroom).
  cbn [print fs console with_files files]. split; [apply lookup_insert_eq|].
  apply last_snoc.
Qed.

Lemma main_saves_witness :
  files (fs (main (sample_world sample_body))) !! ("42" +:+ ".csv")
    = Some (header_line +:+ csv_text (rows_of sample_found))
  /\ last (console (main (sample_world sample_body))) = Some saved_line.
Proof.
  apply (main_saves (sample_world sample_body) {| APIKey := "k"; AlertPolicyID := "42" |}
           sample_body response_7_5 sample_found).
  - vm_compute. reflexivity.
  - reflexivity.
  - reflexivity.
  - vm_compute. reflexivity.
  - vm_compute. reflexivity.
  - apply not_elem_of_empty.
  - exact I.
Defined.

Lemma print_term_not_saved term : saved_line ∉ print_term term.
Proof.
  unfold print_term, saved_line.
  repeat (apply not_elem_of_cons; split; [discriminate|]). apply not_elem_of_nil.
Qed.

Lemma print_condition_not_saved condition : saved_line ∉ print_condition condition.
Proof.
  unfold print_condition. rewrite !not_elem_of_app. split; [|split].
  - unfold saved_line.
    repeat (apply not_elem_of_cons; split; [discriminate|]). apply not_elem_of_nil.
  - induction (Terms condition) as [|t ts IH]; [apply not_elem_of_nil|].
    cbn [map concat]. rewrite not_elem_of_app. split; [apply print_term_not_saved|exact IH].
  - unfold saved_line. apply not_elem_of_cons. split; [discriminate|apply not_elem_of_nil].
Qed.

Lemma dump_not_saved policy found :
  saved_line ∉ Printf "NRQL Alert Conditions for Policy ID %s:\n" [S_ policy]
                 :: concat (map print_condition found).
Proof.
  apply not_elem_of_cons. split; [discriminate|].
  induction found as [|c cs IH]; [apply not_elem_of_nil|].
  cbn [map concat]. rewrite not_elem_of_app. split; [apply print_condition_not_saved|exact IH].
Qed.

(** X12: [main] makes the call of line 68, [fmt.Println] of the text CSV
    file saved successfully, only when the file was saved: if that call is
    among the calls to [fmt] of a run, the configuration was loaded, the
    conditions were fetched, and the file named after the policy holds the
    header and all their rows.  This is about the call and not about the
    bytes on standard output, where line 52 writes the name of a condition
    as it is, whatever text and line feeds it holds. *)
Theorem saved_line_is_true (w : World) (printed : list call) :
  console (main w) = console w ++ printed ->
  saved_line ∈ printed ->
  exists config found,
    loadConfig (fs w) "config.json" = (Some config, None)
    /\ fetchNRQLConditions (net w) (APIKey config) (AlertPolicyID config) = (found, None)
    /\ files (fs (main w)) !! (AlertPolicyID config +:+ ".csv")
         = Some (header_line +:+ csv_text (rows_of found)).
Proof.
  unfold main.
  destruct (loadConfig (fs w) "config.json") as [[config|] [e|]] eqn:Hload.
  - intros <-%app_inv_head Hin.
    apply list_elem_of_singleton in Hin. discriminate Hin.
  - destruct (fetchNRQLConditions _ _ _) as [found [e|]] eqn:Hfetch.
    + intros <-%app_inv_head Hin.
      apply list_elem_of_singleton in Hin. discriminate Hin.
    + cbn [print fs console].
      destruct (SaveNRQLConditionsAsCSV _ found (fs w)) as [fs' [e|]] eqn:Hsave;
        cbn [print fs console]; rewrite <- List.app_assoc; intros <-%app_inv_head Hin.
      * exfalso. apply elem_of_app in Hin as [Hin|Hin].
        -- by apply dump_not_saved in Hin.
        -- apply list_elem_of_singleton in Hin. discriminate Hin.
      * exists config, found. split; [reflexivity|]. split; [exact Hfetch|].
        by apply save_content in Hsave.
  - intros <-%app_inv_head Hin.
    apply list_elem_of_singleton in Hin. discriminate Hin.
  - intros Hc Hin. rewrite <- (app_nil_r (console w)) in Hc at 1.
    apply app_inv_head in Hc as <-. by apply not_elem_of_nil in Hin.
Qed.

Lemma saved_line_is_true_witness :
  exists config found,
    loadConfig (fs (sample_world sample_body)) "config.json" = (Some config, None)
    /\ fetchNRQLConditions (net (sample_world sample_body)) (APIKey config) (AlertPolicyID config)
       = (found, None)
    /\ files (fs (main (sample_world sample_body))) !! (AlertPolicyID config +:+ ".csv")
         = Some (header_line +:+ csv_text (rows_of found)).
Proof.
  apply (saved_line_is_true (sample_world sample_body)
           (Printf "NRQL Alert Conditions for Policy ID %s:\n" [S_ "42"]
              :: concat (map print_condition sample_found) ++ [saved_line])).
  - vm_compute. reflexivity.
  - cbn. set_solver.
Defined.

Lemma has_suffix_app suffix id : has_suffix suffix (id +:+ suffix) = true.
Proof.
  induction id as [|c id IH].
  - rewrite sapp_nil_l. destruct suffix; cbn [has_suffix]; by rewrite bool_decide_eq_true_2.
  - rewrite sapp_cons. cbn [has_suffix]. rewrite IH. apply orb_true_r.
Qed.

(** X13: [main] changes no file but its output: a path that does not end in
    [.csv], the configuration file for one, holds after the run what it held
    before, however the run ends. *)
Theorem main_touches_only_csv (w : World) (path : string) :
  has_suffix ".csv" path = false ->
  files (fs (main w)) !! path = files (fs w) !! path.
Proof.
  intros Hp. unfold main.
  destruct (loadConfig (fs w) "config.json") as [[config|] [e|]]; try reflexivity.
  destruct (fetchNRQLConditions _ _ _) as [found [e|]]; [reflexivity|].
  cbn [print fs console].
  assert (path <> AlertPolicyID config +:+ ".csv") as Hne.
  { intros ->. by rewrite has_suffix_app in Hp. }
  pose proof (save_other_files (AlertPolicyID config +:+ ".csv") path found (fs w) Hne) as H.
  destruct (SaveNRQLConditionsAsCSV _ found (fs w)) as [fs' [e|]]; exact H.
Qed.

Lemma main_touches_only_csv_witness :
  files (fs (main (sample_world sample_body))) !! "config.json"
    = files (fs (sample_world sample_body)) !! "config.json".
Proof.
  apply (main_touches_only_csv (sample_world sample_body) "config.json"). reflexivity.
Defined.

(** X14: [main] writes nothing before it has the conditions: a run that
    leaves the file system other than it found it has loaded the
    configuration and fetched the conditions without error. *)
Theorem main_writes_after_fetch (w : World) :
  fs (main w) <> fs w ->
  exists config found,
    loadConfig (fs w) "config.json" = (Some config, None)
    /\ fetchNRQLConditions (net w) (APIKey config) (AlertPolicyID config) = (found, None).
Proof.
  unfold main.
  destruct (loadConfig (fs w) "config.json") as [[config|] [e|]]; try done.
  destruct (fetchNRQLConditions _ _ _) as [found [e|]] eqn:Hfetch; [done|].
  intros _. by exists config, found.
Qed.

Lemma main_writes_after_fetch_witness :
  exists config found,
    loadConfig (fs (sample_world sample_body)) "config.json" = (Some config, None)
    /\ fetchNRQLConditions (net (sample_world sample_body)) (APIKey config) (AlertPolicyID config)
       = (found, None).
Proof.
  apply (main_writes_after_fetch (sample_world sample_body)).
  intros H. apply (f_equal (fun f => files f !! "42.csv")) in H.
  vm_compute in H. discriminate H.
Defined.

(** ** The CSV file read back *)

Lemma special_inv c :
  csv.special c = false ->
  eqc c LF = false /\ eqc c dquote = false /\ eqc c "," = false.
Proof.
  unfold csv.special. intros [[[H1 _]%orb_false_iff H3]%orb_false_iff H4]%orb_false_iff.
  by repeat split.
Qed.

Lemma sapp_snoc cur c s : (cur +:+ String c "") +:+ s = cur +:+ String c s.
Proof. by rewrite sapp_assoc, sapp_cons, sapp_nil_l. Qed.

Lemma read_plain field : forall rows row cur rest,
  csv.contains csv.special field = false ->
  csv_read_from rows row cur Bare (field +:+ rest)
    = csv_read_from rows row (cur +:+ field) Bare rest.
Proof.
  induction field as [|c f IH]; intros rows row cur rest.
  - intros _. by rewrite sapp_nil_l, sapp_nil_r.
  - cbn [csv.contains]. intros [Hc Hf]%orb_false_iff.
    apply special_inv in Hc as (Hlf & Hq & Hcomma).
    rewrite sapp_cons. cbn [csv_read_from]. rewrite Hq, Hcomma, Hlf. cbn [andb].
    rewrite IH by exact Hf. by rewrite sapp_snoc.
Qed.

Lemma read_quoted field : forall rows row cur rest,
  csv_read_from rows row cur Quoted (csv.escape field +:+ String dquote rest)
    = csv_read_from rows row (cur +:+ field) QuoteSeen rest.
Proof.
  induction field as [|c f IH]; intros rows row cur rest.
  - rewrite sapp_nil_l, sapp_nil_r. cbn [csv_read_from]. unfold eqc.
    by rewrite Ascii.eqb_refl.
  - cbn [csv.escape]. destruct (eqc c dquote) eqn:Ec.
    + apply Ascii.eqb_eq in Ec. subst c. rewrite !sapp_cons. cbn [csv_read_from].
      unfold eqc at 1 2. rewrite !Ascii.eqb_refl. rewrite IH. by rewrite sapp_snoc.
    + rewrite sapp_cons. cbn [csv_read_from]. rewrite Ec, IH. by rewrite sapp_snoc.
Qed.

(** A field as written, and the comma or line feed after it. *)
Lemma read_field field rows row rest :
  csv_read_from rows row "" Bare (csv.field_bytes field +:+ String "," rest)
    = csv_read_from rows (row ++ [field]) "" Bare rest
  /\ csv_read_from rows row "" Bare (csv.field_bytes field +:+ String LF rest)
     = csv_read_from (rows ++ [row ++ [field]]) [] "" Bare rest.
Proof.
  unfold csv.field_bytes. destruct (csv.fieldNeedsQuotes field) eqn:E.
  - rewrite !sapp_assoc, !sapp_cons, !sapp_nil_l.
    split; cbn [csv_read_from]; unfold eqc at 1; rewrite Ascii.eqb_refl;
      rewrite bool_decide_eq_true_2 by reflexivity; cbn [andb];
      rewrite read_quoted, sapp_nil_l; reflexivity.
  - apply fieldNeedsQuotes_false in E.
    split; rewrite (read_plain _ _ _ _ _ E), sapp_nil_l; reflexivity.
Qed.

Lemma read_fields fields : forall rows row field n rest,
  csv_read_from rows row "" Bare
    (csv.field_bytes field +:+ csv.fields_bytes (S n) fields +:+ String LF rest)
  = csv_read_from (rows ++ [row ++ field :: fields]) [] "" Bare rest.
Proof.
  induction fields as [|g gs IH]; intros rows row field n rest.
  - cbn [csv.fields_bytes]. rewrite sapp_nil_l. apply read_field.
  - cbn [csv.fields_bytes].
    change ((if (0 <? S n)%nat then "," else "") +:+ csv.field_bytes g
              +:+ csv.fields_bytes (S (S n)) gs)
      with (String "," (csv.field_bytes g +:+ csv.fields_bytes (S (S n)) gs)).
    rewrite sapp_cons, (proj1 (read_field _ _ _ _)), sapp_assoc, IH.
    by rewrite <- List.app_assoc.
Qed.

Lemma read_record field fields rows rest :
  csv_read_from rows [] "" Bare (csv.record_bytes (field :: fields) +:+ rest)
    = csv_read_from (rows ++ [field :: fields]) [] "" Bare rest.
Proof.
  unfold csv.record_bytes. cbn [csv.fields_bytes].
  rewrite sapp_nil_l, !sapp_assoc, sapp_cons, sapp_nil_l.
  by rewrite read_fields.
Qed.

Lemma read_text records : forall rows,
  Forall (fun record => record <> []) records ->
  csv_read_from rows [] "" Bare (csv_text records) = rows ++ records.
Proof.
  induction records as [|r rs IH]; intros rows Hall.
  - by rewrite app_nil_r.
  - apply Forall_cons_1 in Hall as [Hr Hrs]. destruct r as [|f fs]; [done|].
    cbn [csv_text foldr]. fold (csv_text rs).
    rewrite read_record, IH by exact Hrs. by rewrite <- List.app_assoc.
Qed.

Lemma rows_of_nonempty conditions : Forall (fun record => record <> []) (rows_of conditions).
Proof.
  unfold rows_of. induction conditions as [|c cs IH]; [constructor|].
  cbn [flat_map]. apply Forall_app_2; [|exact IH].
  induction (Terms c) as [|t ts IHt]; constructor; [discriminate|exact IHt].
Qed.

(** X15: the file that a successful [SaveNRQLConditionsAsCSV] leaves reads
    back, by the rules of RFC 4180, as the header followed by exactly the
    rows, field for field, whatever bytes the names and the fields hold:
    commas, quotes and line feeds in them do not break a row. *)
Theorem saved_file_reads_back (filename : string) (conditions : list NRQLCondition)
    (fs fs' : FileSystem) :
  SaveNRQLConditionsAsCSV filename conditions fs = (fs', None) ->
  exists content,
    files fs' !! filename = Some content
    /\ csv_read content = header :: rows_of conditions.
Proof.
  intros H. apply save_content in H. eexists. split; [exact H|].
  unfold csv_read. rewrite <- header_bytes. unfold header at 1.
  rewrite read_record, read_text by apply rows_of_nonempty. reflexivity.
Qed.

Lemma saved_file_reads_back_witness :
  exists content,
    files (SaveNRQLConditionsAsCSV "42.csv" sample_conditions sample_fs).1 !! "42.csv"
      = Some content
    /\ csv_read content = header :: rows_of sample_conditions.
Proof.
  apply (saved_file_reads_back "42.csv" sample_conditions sample_fs). vm_compute. reflexivity.
Defined.

(** ** The rounding of [formatThreshold] *)

Lemma round_half_even_nearest m k :
  0 <= m -> 0 < k ->
  let n := fmt.round_half_even m k in
  0 <= n
  /\ 2 * Z.abs (n * 2 ^ k - m) <= 2 ^ k
  /\ (2 * Z.abs (n * 2 ^ k - m) = 2 ^ k -> Z.even n = true).
Proof.
  intros Hm Hk. unfold fmt.round_half_even.
  rewrite Z.shiftr_div_pow2, !Z.shiftl_mul_pow2, Z.mul_1_l by lia.
  assert (0 < 2 ^ k) as Hd by (apply Z.pow_pos_nonneg; lia).
  set (d := 2 ^ k) in *. set (q := m / d).
  pose proof (Z.div_mod m d ltac:(lia)) as Hdiv.
  pose proof (Z.mod_pos_bound m d Hd) as Hmod.
  assert (0 <= q) as Hq by (apply Z.div_pos; lia).
  fold q in Hdiv. rewrite (Z.mul_comm d q) in Hdiv.
  set (r := m - q * d). assert (r = m mod d) as Hr by (unfold r; lia).
  assert ((q + 1) * d = q * d + d) as Hs by ring.
  destruct (Z.compare_spec (2 * r) d) as [He|Hlt|Hgt]; cbv zeta.
  - destruct (Z.even q) eqn:Eq.
    + repeat split; [lia|lia|auto].
    + rewrite Hs. repeat split; [lia|lia|].
      intros _. rewrite Z.even_add, Eq. reflexivity.
  - repeat split; lia.
  - rewrite Hs. repeat split; lia.
Qed.

(** X16: for every string that parses to a finite float other than zero,
    the threshold is the sign of that float and the decimal digits of the
    integer nearest to its magnitude, the even one of the two when it is
    half way between them; a negative value that rounds to zero is printed
    with its sign. *)
Theorem formatThreshold_nearest (value : string) (s : bool) (m : positive) (e : Z) :
  strconv.ParseFloat value = (SpecFloat.S754_finite s m e, None) ->
  exists n,
    formatThreshold value = ((if s then "-" else "") +:+ fmt.decimal n, None)
    /\ 0 <= n
    /\ match e with
       | Zneg k =>
           2 * Z.abs (n * 2 ^ Zpos k - Zpos m) <= 2 ^ Zpos k
           /\ (2 * Z.abs (n * 2 ^ Zpos k - Zpos m) = 2 ^ Zpos k -> Z.even n = true)
       | _ => n = Zpos m * 2 ^ e
       end.
Proof.
  intros Hp. pose proof (formatThreshold_inv value) as Hf. rewrite Hp in Hf.
  rewrite Hf. cbn [fmt.Sprintf_f0]. destruct e as [|k|k].
  - eexists. repeat split. lia.
  - eexists. repeat split. pose proof (Z.pow_pos_nonneg 2 (Zpos k)). lia.
  - destruct (round_half_even_nearest (Zpos m) (Zpos k)) as (H0 & H1 & H2); [lia..|].
    eexists. repeat split; eassumption.
Qed.

Lemma formatThreshold_nearest_witness :
  exists n,
    formatThreshold "7.5" = ("" +:+ fmt.decimal n, None)
    /\ 0 <= n
    /\ 2 * Z.abs (n * 2 ^ 50 - 8444249301319680) <= 2 ^ 50
    /\ (2 * Z.abs (n * 2 ^ 50 - 8444249301319680) = 2 ^ 50 -> Z.even n = true).
Proof.
  apply (formatThreshold_nearest "7.5" false 8444249301319680 (-50)).
  vm_compute. reflexivity.
Defined.

(** ** Empty texts *)

Lemma lex_blank s : blank s = true -> json.lex json.Idle s = [].
Proof.
  induction s as [|c s IH]; [reflexivity|].
  cbn [blank]. intros [Hc Hs]%andb_true_iff.
  cbn [json.lex]. unfold json.start. rewrite Hc. cbn [app]. by apply IH.
Qed.

(** X17: a text that is empty or holds only blanks is no JSON value: as the
    configuration file it makes [loadConfig] fail with [io.EOF], and as the
    body of the response it makes [fetchNRQLConditions] fail with it. *)
Theorem blank_text_is_EOF (data : string) :
  blank data = true ->
  (forall fs filename,
     filename ∉ denied fs -> files fs !! filename = Some data ->
     loadConfig fs filename = (None, Some EOF))
  /\ (forall net apiKey policyID,
        NewRequest net (endpoint +:+ policyID) = None ->
        Do net (endpoint +:+ policyID) apiKey = inl data ->
        fetchNRQLConditions net apiKey policyID = ([], Some EOF)).
Proof.
  intros Hb. assert (json.readValue data = inr EOF) as Hr.
  { unfold json.readValue. by rewrite lex_blank. }
  split.
  - intros fs filename Hd Hf. unfold loadConfig, os_Open.
    rewrite bool_decide_eq_false_2 by exact Hd. rewrite Hf.
    unfold Decoder_Decode, Decode_Config. by rewrite Hr.
  - intros net apiKey policyID Hreq Hdo. unfold fetchNRQLConditions.
    rewrite Hreq, Hdo. unfold Decode_map. by rewrite Hr.
Qed.

Lemma blank_text_is_EOF_witness :
  (forall fs filename,
     filename ∉ denied fs -> files fs !! filename = Some " " ->
     loadConfig fs filename = (None, Some EOF))
  /\ (forall net apiKey policyID,
        NewRequest net (endpoint +:+ policyID) = None ->
        Do net (endpoint +:+ policyID) apiKey = inl " " ->
        fetchNRQLConditions net apiKey policyID = ([], Some EOF)).
Proof. apply (blank_text_is_EOF " "). reflexivity. Defined.
